(** * Benchmark harnesses of desktop_search: [recoll_benchmark.py] and
    [docfetcher_benchmark.py]

    A shallow embedding of the two per-query pipelines (normalise the query
    text, call the backend, deduplicate or truncate, time, write rows) and
    the properties their description states about them.

    Python values are modelled as follows.
    - [str] is [string]; a character stands for a code point below 256.
    - [int] is [Z] where subtraction is involved ([MAX_RANK - i]) and [nat]
      for positions produced by [enumerate].
    - [float] is IEEE binary64 as [spec_float] describes it (precision 53,
      [emax] 1024), with its rounding subtraction and its comparison.
    - the set [results_ids] is a [gset string].
    - an uncaught exception is a value of [exn]; a loop that may not finish
      is run with fuel. *)

From stdpp Require Import base list strings gmap relations pretty.
From Stdlib Require Import Ascii ZArith Lia SpecFloat.

(** ** Python string methods used by the harnesses *)

Module PyStr.

(** [str.isspace] on one character, for code points below 256: TAB..CR,
    FS..US, SPACE, NEL and NBSP. *)
Definition isspace (c : ascii) : bool :=
  let n := nat_of_ascii c in
  ((9 <=? n)%nat && (n <=? 13)%nat) || ((28 <=? n)%nat && (n <=? 32)%nat)
  || (n =? 133)%nat || (n =? 160)%nat.

(** [s.replace(old, new)] scans left to right and replaces every
    non-overlapping occurrence.  [skip] counts the characters of a match
    that are still to be dropped. *)
Fixpoint replace_from (old new : string) (skip : nat) (s : string) : string :=
  match s with
  | EmptyString => EmptyString
  | String c s' =>
      match skip with
      | S k => replace_from old new k s'
      | O =>
          if String.prefix old s
          then new +:+ replace_from old new (String.length old - 1) s'
          else String c (replace_from old new 0 s')
      end
  end.

(** With an empty [old] Python puts [new] before every character and at
    the end. *)
Fixpoint intersperse_all (new s : string) : string :=
  match s with
  | EmptyString => new
  | String c s' => new +:+ String c (intersperse_all new s')
  end.

Definition replace (old new s : string) : string :=
  match old with
  | EmptyString => intersperse_all new s
  | _ => replace_from old new 0 s
  end.

(** [s.split()]: maximal runs of non-whitespace characters.  [word] is the
    run being read, most recent character first. *)
Fixpoint split_from (word : string) (s : string) : list string :=
  match s with
  | EmptyString =>
      match word with EmptyString => [] | _ => [String.rev word] end
  | String c s' =>
      if isspace c
      then match word with
           | EmptyString => split_from EmptyString s'
           | _ => String.rev word :: split_from EmptyString s'
           end
      else split_from (String c word) s'
  end.

Definition split (s : string) : list string := split_from EmptyString s.

(** [sep.join(parts)] *)
Fixpoint join (sep : string) (parts : list string) : string :=
  match parts with
  | [] => EmptyString
  | [p] => p
  | p :: rest => p +:+ sep +:+ join sep rest
  end.

(** Every character [c] of [s] exchanged for [c'], the others kept: what
    "replace the path separator with whitespace" says, character by
    character. *)
Fixpoint translate (c c' : ascii) (s : string) : string :=
  match s with
  | EmptyString => EmptyString
  | String x s' => String (if Ascii.eqb x c then c' else x) (translate c c' s')
  end.

(** [s[:-4]]: everything but the last four characters, and the empty
    string when [s] has fewer than four. *)
Definition drop_last4 (s : string) : string :=
  String.substring 0 (String.length s - 4) s.

End PyStr.

(** ** Python floats *)

Module PyFloat.

(** The binary64 format. *)
Definition prec : Z := 53.
Definition emax : Z := 1024.
Definition emin : Z := SpecFloat.emin prec emax.

(** [x - y], [x <= y] and [0.0] on floats. *)
Definition sub (x y : spec_float) : spec_float := SFsub prec emax x y.
Definition leb (x y : spec_float) : bool := SFleb x y.
Definition zero : spec_float := S754_zero false.

Definition is_finite (x : spec_float) : bool :=
  match x with
  | S754_zero _ | S754_finite _ _ _ => true
  | S754_infinity _ | S754_nan => false
  end.

(** What a clock gives: a finite number in the format. *)
Definition reading (x : spec_float) : Prop :=
  is_finite x = true ∧ valid_binary prec emax x = true.

(** The value of a finite float in units of [2 ^ emin], an integer. *)
Definition scaled (x : spec_float) : Z :=
  match x with
  | S754_finite s m e => cond_Zopp s (Zpos m * 2 ^ (e - emin))%Z
  | _ => 0%Z
  end.

(** The sign bit is clear, or the number is a zero. *)
Definition nonneg (r : spec_float) : bool :=
  match r with
  | S754_zero _ | S754_finite false _ _ | S754_infinity false => true
  | _ => false
  end.

(** The readings of a clock that counts ticks from [2 ^ 52] on, and stops
    one short of [2 ^ 53]: each is the float of that integer. *)
Definition of_ticks (t : Z) : spec_float :=
  S754_finite false
    (Z.to_pos (2 ^ 52 + Z.min (Z.max t 0) (2 ^ 52 - 1))%Z) 0.

End PyFloat.

(** ** Data shared by the two harnesses *)

(** [MAX_RANK = 100] *)
Definition MAX_RANK : nat := 100.

(** A result document; [filename] is [doc.filename] for recoll and
    [doc.getFilename()] for DocFetcher. *)
Record Doc : Type := { filename : string }.

#[global] Instance Doc_eq_dec : EqDecision Doc.
Proof. solve_decision. Defined.

(** Uncaught exceptions that end the script. *)
Inductive exn : Type :=
  | IndexError
  | AttributeError
  | StopIteration
  | OtherError (what : string).

(** What one query's processing comes to: it completes, an exception
    escapes, or the fuel of the model runs out before it does either. *)
Inductive outcome (A : Type) : Type :=
  | Done (a : A)
  | Raised (e : exn)
  | OutOfFuel.
Arguments Done {A} a.
Arguments Raised {A} e.
Arguments OutOfFuel {A}.

(** The tuple handed to [results_csv.writerow]. *)
Record ResultRow : Type := {
  query_id : string;
  iteration : Z;
  doc_id : string;
  rank : nat;
  score : Z;
  run_tag : Z;
  duration_s : spec_float;
}.

(** [for i, doc in enumerate(docs): results_csv.writerow((query_id, 0,
    doc.filename[:-4], i, MAX_RANK - i, 0, duration_s))] *)
Definition writerows (max_rank : nat) (qid : string) (dur : spec_float)
    (docs : list Doc) : list ResultRow :=
  imap (λ i doc,
          {| query_id := qid;
             iteration := 0;
             doc_id := PyStr.drop_last4 (filename doc);
             rank := i;
             score := Z.of_nat max_rank - Z.of_nat i;
             run_tag := 0;
             duration_s := dur |}) docs.

(** One processed query: the rows written, the progress line printed and
    the state the backend is left in. *)
Record processed (W : Type) : Type := {
  rows : list ResultRow;
  notice : string;
  world : W;
}.
Arguments rows {W} p.
Arguments notice {W} p.
Arguments world {W} p.

(** How a whole run ends. *)
Inductive status : Type :=
  | Completed
  | Crashed (e : exn)
  | Hung.

(** The output file, the progress lines and the way the run ended. *)
Record run : Type := {
  written : list ResultRow;
  printed : list string;
  ending : status;
}.

(** [for query_row in queries_tsv: ...] with the loop body [body].  An
    exception in the body ends the run; the rows of earlier queries stay in
    the output. *)
Fixpoint query_loop {W : Type} (body : list string → W → outcome (processed W))
    (queries_tsv : list (list string)) (w : W) : run :=
  match queries_tsv with
  | [] => {| written := []; printed := []; ending := Completed |}
  | query_row :: later =>
      match body query_row w with
      | Done p =>
          let r := query_loop body later (world p) in
          {| written := rows p ++ written r;
             printed := notice p :: printed r;
             ending := ending r |}
      | Raised e => {| written := []; printed := []; ending := Crashed e |}
      | OutOfFuel => {| written := []; printed := []; ending := Hung |}
      end
  end.

(** ** docfetcher_benchmark.py *)

Module Docfetcher.

(** The DocFetcher application behind the gateway: the clock read by
    [time.perf_counter()] and [searcher.search(text)]. *)
Record Searcher (W : Type) : Type := {
  now : W → spec_float;
  search : string → W → list Doc * W;
}.
Arguments now {W} s w.
Arguments search {W} s text w.

(** [query_text.replace("/", " ")] *)
Definition normalize (query_text : string) : string :=
  PyStr.replace "/" " " query_text.

Section Harness.
Context {W : Type} (searcher : Searcher W) (max_rank : nat).

(** The body of the query loop. *)
Definition process_query (query_row : list string) (w : W)
    : outcome (processed W) :=
  match query_row !! 0%nat with
  | None => Raised IndexError
  | Some qid =>
      match query_row !! 1%nat with
      | None => Raised IndexError
      | Some query_text =>
          let time_start := now searcher w in
          let '(found, w1) := search searcher (normalize query_text) w in
          let results := take max_rank found in
          let dur := PyFloat.sub (now searcher w1) time_start in
          Done {| rows := writerows max_rank qid dur results;
                  notice := "Processed query " +:+ qid;
                  world := w1 |}
      end
  end.

Definition main_with (queries_tsv : list (list string)) (w : W) : run :=
  query_loop process_query queries_tsv w.

(** [time.perf_counter()] gives finite numbers and is monotonic: a search
    never takes the clock back. *)
Definition monotonic : Prop :=
  (∀ w, PyFloat.reading (now searcher w))
  ∧ (∀ text w,
       PyFloat.leb (now searcher w) (now searcher (search searcher text w).2)
       = true).
End Harness.

(** The script, with [MAX_RANK = 100]. *)
Definition main {W : Type} (searcher : Searcher W) := main_with searcher MAX_RANK.

End Docfetcher.

(** ** recoll_benchmark.py *)

Module Recoll.

(** What the list [results] holds: documents, and [None] when
    [fetchone()] returned it. *)
Inductive pyobj : Type :=
  | PyDoc (doc : Doc)
  | PyNone.

(** One call of [query.fetchone()]: it returns an object or raises. *)
Inductive fetched : Type :=
  | Returns (v : pyobj)
  | Raises (e : exn).

#[global] Instance pyobj_eq_dec : EqDecision pyobj.
Proof. solve_decision. Defined.

(** The two ways a backend has of saying that nothing is left: [None], or
    an exception. *)
Definition end_of_results (f : fetched) : Prop :=
  match f with
  | Returns (PyDoc _) => False
  | Returns PyNone => True
  | Raises _ => True
  end.

(** The recoll session: the clock read by [time.perf_counter()],
    [db.query()] followed by [query.execute(text, stemming=1)],
    [query.fetchmany(n)], [query.fetchone()] and [query.close()]. *)
Record Backend (W : Type) : Type := {
  now : W → spec_float;
  execute : string → W → W;
  fetchmany : nat → W → list Doc * W;
  fetchone : W → fetched * W;
  close : W → W;
}.
Arguments now {W} b w.
Arguments execute {W} b text w.
Arguments fetchmany {W} b n w.
Arguments fetchone {W} b w.
Arguments close {W} b w.

(** The chain of [replace] calls on the query text. *)
Definition cleaned (query_text : string) : string :=
  PyStr.replace "/" " "
    (PyStr.replace "---" " "
      (PyStr.replace " - " " "
        (PyStr.replace ")" ""
          (PyStr.replace "(" ""
            (PyStr.replace "?" ""
              (PyStr.replace ":" ""
                (PyStr.replace "," ""
                  (PyStr.replace "." "" query_text)))))))).

(** [....split()] *)
Definition terms (query_text : string) : list string :=
  PyStr.split (cleaned query_text).

(** [" OR ".join(...)] *)
Definition normalize (query_text : string) : string :=
  PyStr.join " OR " (terms query_text).

(** The variables of the deduplicating loop.  [pos] is the index of the
    list iterator of [for doc in results]; [results] grows while it is
    walked. *)
Record walk_state (W : Type) : Type := {
  results : list pyobj;
  pos : nat;
  results_ids : gset string;
  results_dedup : list Doc;
  session : W;
}.
Arguments results {W} _.
Arguments pos {W} _.
Arguments results_ids {W} _.
Arguments results_dedup {W} _.
Arguments session {W} _.

Inductive step_result (W : Type) : Type :=
  | Next (st : walk_state W)
  | Exhausted
  | Throws (e : exn).
Arguments Next {W} st.
Arguments Exhausted {W}.
Arguments Throws {W} e.

Inductive walk_result (W : Type) : Type :=
  | Finished (st : walk_state W)
  | Aborted (e : exn) (st : walk_state W)
  | Starved (st : walk_state W).
Arguments Finished {W} st.
Arguments Aborted {W} e st.
Arguments Starved {W} st.

Section Harness.
Context {W : Type} (db : Backend W) (max_rank : nat).

(** [results = query.fetchmany(MAX_RANK); results_dedup = [];
    results_ids = set()] *)
Definition walk_init (batch : list Doc) (w : W) : walk_state W :=
  {| results := PyDoc <$> batch;
     pos := 0;
     results_ids := ∅;
     results_dedup := [];
     session := w |}.

(** One turn of [for doc in results]: the iterator stops when [pos] is
    past the end; [doc.filename] on [None] raises; a known filename
    makes the loop append one [fetchone()], a new one is recorded and
    the document kept. *)
Definition walk_step (st : walk_state W) : step_result W :=
  match results st !! pos st with
  | None => Exhausted
  | Some PyNone => Throws AttributeError
  | Some (PyDoc doc) =>
      if decide (filename doc ∈ results_ids st)
      then match fetchone db (session st) with
           | (Raises e, _) => Throws e
           | (Returns v, w') =>
               Next {| results := results st ++ [v];
                       pos := S (pos st);
                       results_ids := results_ids st;
                       results_dedup := results_dedup st;
                       session := w' |}
           end
      else Next {| results := results st;
                   pos := S (pos st);
                   results_ids := {[filename doc]} ∪ results_ids st;
                   results_dedup := results_dedup st ++ [doc];
                   session := session st |}
  end.

(** The loop, for at most [fuel] turns. *)
Fixpoint walk (fuel : nat) (st : walk_state W) : walk_result W :=
  match fuel with
  | O => Starved st
  | S fuel' =>
      match walk_step st with
      | Next st' => walk fuel' st'
      | Exhausted => Finished st
      | Throws e => Aborted e st
      end
  end.

(** One turn leads from [st] to [st']. *)
Definition walk_next (st st' : walk_state W) : Prop :=
  walk_step st = Next st'.

(** The loop has come to an end, one way or the other. *)
Definition ended (r : walk_result W) : Prop :=
  match r with
  | Finished _ | Aborted _ _ => True
  | Starved _ => False
  end.

(** What a turn that goes on has done. *)
Inductive turn (st st' : walk_state W) : Prop :=
  | turn_backfill doc v w' :
      results st !! pos st = Some (PyDoc doc) →
      filename doc ∈ results_ids st →
      fetchone db (session st) = (Returns v, w') →
      st' = {| results := results st ++ [v]; pos := S (pos st);
               results_ids := results_ids st;
               results_dedup := results_dedup st; session := w' |} →
      turn st st'
  | turn_accept doc :
      results st !! pos st = Some (PyDoc doc) →
      filename doc ∉ results_ids st →
      st' = {| results := results st; pos := S (pos st);
               results_ids := {[filename doc]} ∪ results_ids st;
               results_dedup := results_dedup st ++ [doc];
               session := session st |} →
      turn st st'.

(** The states the loop goes through for a batch. *)
Definition reachable (batch : list Doc) (w : W) (st : walk_state W) : Prop :=
  rtc walk_next (walk_init batch w) st.

(** [query.fetchmany(n)] hands over at most [n] documents. *)
Definition fetchmany_bounded : Prop :=
  ∀ n w, length (fetchmany db n w).1 ≤ n.

(** [time.perf_counter()] gives finite numbers and is monotonic: no call
    of the backend takes the clock back. *)
Definition monotonic : Prop :=
  (∀ w, PyFloat.reading (now db w))
  ∧ (∀ text w, PyFloat.leb (now db w) (now db (execute db text w)) = true)
  ∧ (∀ n w, PyFloat.leb (now db w) (now db (fetchmany db n w).2) = true)
  ∧ (∀ w, PyFloat.leb (now db w) (now db (fetchone db w).2) = true)
  ∧ (∀ w, PyFloat.leb (now db w) (now db (close db w)) = true).

(** The session after [k] calls of [fetchone()], and the answer to the
    call that follows them. *)
Fixpoint after_fetches (k : nat) (w : W) : W :=
  match k with
  | O => w
  | S k' => (fetchone db (after_fetches k' w)).2
  end.

Definition nth_fetch (k : nat) (w : W) : fetched :=
  (fetchone db (after_fetches k w)).1.

(** Duplicates whose backfill brought [None]. *)
Definition unreplaced (st : walk_state W) : nat :=
  length (filter (λ v, v = PyNone) (results st)).

(** The body of the query loop. *)
Definition process_query (fuel : nat) (query_row : list string) (w : W)
    : outcome (processed W) :=
  match query_row !! 0%nat with
  | None => Raised IndexError
  | Some qid =>
      match query_row !! 1%nat with
      | None => Raised IndexError
      | Some query_text =>
          let time_start := now db w in
          let w1 := execute db (normalize query_text) w in
          let '(batch, w2) := fetchmany db max_rank w1 in
          match walk fuel (walk_init batch w2) with
          | Finished st =>
              let w3 := close db (session st) in
              let dur := PyFloat.sub (now db w3) time_start in
              Done {| rows := writerows max_rank qid dur (results_dedup st);
                      notice := "Processed query " +:+ qid;
                      world := w3 |}
          | Aborted e _ => Raised e
          | Starved _ => OutOfFuel
          end
      end
  end.

Definition main_with (fuel : nat) (queries_tsv : list (list string)) (w : W)
    : run :=
  query_loop (process_query fuel) queries_tsv w.
End Harness.

(** The script, with [MAX_RANK = 100]. *)
Definition main {W : Type} (db : Backend W) := main_with db MAX_RANK.

End Recoll.

(** ** Backends to run the harnesses on *)

(** A recoll session over a finite result list per query text: [execute]
    loads the list, [fetchmany] and [fetchone] consume it front to back, and
    [fetchone] on an empty list gives [eor].  Every call takes one tick. *)
Module Cursor.
Import Recoll.

Record cursor : Type := {
  index : string → list Doc;
  pending : list Doc;
  clock : Z;
}.

Definition advance (rest : list Doc) (c : cursor) : cursor :=
  {| index := index c; pending := rest; clock := clock c + 1 |}.

Definition backend (eor : fetched) : Backend cursor :=
  {| now := λ c, PyFloat.of_ticks (clock c);
     execute := λ text c, advance (index c text) c;
     fetchmany := λ n c, (take n (pending c), advance (drop n (pending c)) c);
     fetchone := λ c,
       match pending c with
       | [] => (eor, advance [] c)
       | d :: rest => (Returns (PyDoc d), advance rest c)
       end;
     close := λ c, advance [] c |}.

(** A session that answers every query text with [found]. *)
Definition fresh (found : list Doc) : cursor :=
  {| index := λ _, found; pending := []; clock := 0 |}.

(** A session in the middle of a query, with [rest] still to fetch. *)
Definition midway (rest : list Doc) : cursor :=
  {| index := λ _, []; pending := rest; clock := 0 |}.
End Cursor.

(** A recoll session that never runs out and gives the same document at
    every fetch. *)
Module Repeating.
Import Recoll.

Definition backend (d : Doc) : Backend Z :=
  {| now := PyFloat.of_ticks;
     execute := λ _ t, (t + 1)%Z;
     fetchmany := λ n t, (replicate n d, (t + 1)%Z);
     fetchone := λ t, (Returns (PyDoc d), (t + 1)%Z);
     close := λ t, (t + 1)%Z |}.
End Repeating.

(** A DocFetcher searcher over a fixed answer per query text. *)
Module Fixed.
Import Docfetcher.

Definition searcher (index : string → list Doc) : Searcher Z :=
  {| now := PyFloat.of_ticks;
     search := λ text t, (index text, (t + 1)%Z) |}.
End Fixed.

(** The documents of the scenarios. *)
Definition D1 : Doc := {| filename := "D1.txt" |}.
Definition D2 : Doc := {| filename := "D2.txt" |}.
Definition D3 : Doc := {| filename := "D3.txt" |}.
Definition D4 : Doc := {| filename := "D4.txt" |}.

(** A DocFetcher answer of 103 copies of one file. *)
Definition many_copies : list Doc := replicate 103 {| filename := "A.ext" |}.

(** A recoll answer of 101 results: one file twice, then 99 others.  The
    first hundred make the initial batch; the last is left for backfill. *)
Definition numbered (n : nat) : Doc := {| filename := pretty n +:+ ".txt" |}.
Definition long_answer : list Doc :=
  numbered 200 :: numbered 200 :: (numbered <$> seq 0 99).

(** What is to be kept of it: everything but the repeat. *)
Definition long_kept : list Doc := numbered 200 :: (numbered <$> seq 0 99).


(** ** nn_server_activity_plot.py *)

Module ActivityPlot.

(** The line feed, and [f"({time}, {value})\n"]. *)
Definition nl : string := String (ascii_of_nat 10) EmptyString.

Definition point (time value : string) : string :=
  "(" +:+ time +:+ ", " +:+ value +:+ ")" +:+ nl.

(** What the script has written to the results file when it stops, and the
    exception that stopped it, if one did. *)
Record report : Type := {
  content : string;
  failure : option exn;
}.

Section Script.
(** [datetime.strptime(text, "%Y/%m/%d %H:%M:%S.%f")], [None] standing for
    [ValueError], and [str((date_time - start_date_time).total_seconds())]. *)
Context {T : Type} (strptime : string → option T) (elapsed : T → T → string).

(** [for row in activity_cpu: ...] *)
Fixpoint cpu_loop (rows : list (list string)) (results_cpu results_ram : list string)
    : exn + list string * list string :=
  match rows with
  | [] => inr (results_cpu, results_ram)
  | row :: later =>
      match row !! 0%nat with
      | None => inl IndexError
      | Some time =>
          match row !! 1%nat with
          | None => inl IndexError
          | Some cpu =>
              match row !! 2%nat with
              | None => inl IndexError
              | Some ram =>
                  cpu_loop later (results_cpu ++ [point time cpu])
                    (results_ram ++ [point time ram])
              end
          end
      end
  end.

(** [for row in activity_gpu: ...], with [start_date_time] set at the first
    row. *)
Fixpoint gpu_loop (rows : list (list string)) (start_date_time : option T)
    (results_gpu results_vram : list string) : exn + list string * list string :=
  match rows with
  | [] => inr (results_gpu, results_vram)
  | row :: later =>
      match row !! 0%nat with
      | None => inl IndexError
      | Some stamp =>
          match strptime stamp with
          | None => inl (OtherError "ValueError")
          | Some date_time =>
              let start := default date_time start_date_time in
              let time := elapsed date_time start in
              match row !! 1%nat with
              | None => inl IndexError
              | Some gpu =>
                  match row !! 2%nat with
                  | None => inl IndexError
                  | Some vram =>
                      gpu_loop later (Some start)
                        (results_gpu ++ [point time gpu])
                        (results_vram ++ [point time vram])
                  end
              end
          end
      end
  end.

(** The script on the rows of the two logs.  [next(...)] drops the header
    row and raises [StopIteration] when there is none; the four writes of a
    log come after its loop. *)
Definition main (activity_cpu activity_gpu : list (list string)) : report :=
  match activity_cpu with
  | [] => {| content := ""; failure := Some StopIteration |}
  | _ :: cpu_rows =>
      match cpu_loop cpu_rows [] [] with
      | inl e => {| content := ""; failure := Some e |}
      | inr (results_cpu, results_ram) =>
          let first_half :=
            "CPU (%):" +:+ nl +:+ PyStr.join "" results_cpu
            +:+ nl +:+ nl +:+ "RAM (MiB):" +:+ nl +:+ PyStr.join "" results_ram in
          match activity_gpu with
          | [] => {| content := first_half; failure := Some StopIteration |}
          | _ :: gpu_rows =>
              match gpu_loop gpu_rows None [] [] with
              | inl e => {| content := first_half; failure := Some e |}
              | inr (results_gpu, results_vram) =>
                  {| content :=
                       first_half
                       +:+ nl +:+ nl +:+ "GPU (%):" +:+ nl
                       +:+ PyStr.join "" results_gpu
                       +:+ nl +:+ nl +:+ "VRAM (MiB):" +:+ nl
                       +:+ PyStr.join "" results_vram;
                     failure := None |}
              end
          end
      end
  end.

(** The [i]-th field of a row that has one. *)
Definition field (i : nat) (row : list string) : string := default "" (row !! i).

(** The two sections of the first log, one point per data row. *)
Definition cpu_sections (cpu_rows : list (list string)) : string :=
  "CPU (%):" +:+ nl
  +:+ PyStr.join "" ((λ row, point (field 0 row) (field 1 row)) <$> cpu_rows)
  +:+ nl +:+ nl +:+ "RAM (MiB):" +:+ nl
  +:+ PyStr.join "" ((λ row, point (field 0 row) (field 2 row)) <$> cpu_rows).

(** The time of a row of the second log counted from [start], and counted
    from the first data row. *)
Definition time_from (start : T) (row : list string) : string :=
  match strptime (field 0 row) with
  | Some date_time => elapsed date_time start
  | None => ""
  end.

Definition gpu_time (gpu_rows : list (list string)) (row : list string) : string :=
  match head gpu_rows ≫= (λ r, strptime (field 0 r)) with
  | Some start => time_from start row
  | None => ""
  end.

(** The two sections of the second log, one point per data row. *)
Definition gpu_sections (gpu_rows : list (list string)) : string :=
  nl +:+ nl +:+ "GPU (%):" +:+ nl
  +:+ PyStr.join ""
        ((λ row, point (gpu_time gpu_rows row) (field 1 row)) <$> gpu_rows)
  +:+ nl +:+ nl +:+ "VRAM (MiB):" +:+ nl
  +:+ PyStr.join ""
        ((λ row, point (gpu_time gpu_rows row) (field 2 row)) <$> gpu_rows).

(** A data row the first loop gets through, and one the second does. *)
Definition cpu_row_ok (row : list string) : Prop := 3 ≤ length row.

Definition gpu_row_ok (row : list string) : Prop :=
  3 ≤ length row ∧ is_Some (strptime (field 0 row)).
End Script.

End ActivityPlot.

(** A small instance of the date arithmetic, and logs to run the script on:
    a stamp is a tally of strokes, the empty stamp is no date, and the time
    between two stamps is the difference of their lengths. *)
Module Tally.
Definition strptime (text : string) : option nat :=
  if decide (text = "") then None else Some (String.length text).

Definition elapsed (date_time start : nat) : string := pretty (date_time - start).

Definition cpu_log : list (list string) :=
  [["time"; "cpu"; "ram"]; ["0"; "5"; "100"]; ["1"; "7"; "120"; "spare"]].

Definition gpu_log : list (list string) :=
  [["time"; "gpu"; "vram"]; ["||"; "30"; "400"]; ["|||||"; "60"; "800"]].

Definition gpu_log_cut : list (list string) :=
  [["time"; "gpu"; "vram"]; ["||"; "30"; "400"]; ["|||||"; "60"]].
End Tally.

(** ** Notions used to state further properties *)

(** [c] occurs in [s]. *)
Definition has_char (c : ascii) (s : string) : Prop :=
  c ∈ String.list_ascii_of_string s.

(** The characters the term-OR policy takes out or turns into a space. *)
Definition stripped : list ascii :=
  ["."; ","; ":"; "?"; "("; ")"; "/"]%char.

(** The documents among the objects of a list, in order. *)
Definition docs_of (objs : list Recoll.pyobj) : list Doc :=
  omap (λ v, match v with
             | Recoll.PyDoc doc => Some doc
             | Recoll.PyNone => None
             end) objs.

(** A list of documents with every filename kept where it first comes and
    dropped where it comes again; [seen] holds the filenames already met. *)
Fixpoint first_by_filename (seen : gset string) (docs : list Doc) : list Doc :=
  match docs with
  | [] => []
  | doc :: rest =>
      if decide (filename doc ∈ seen)
      then first_by_filename seen rest
      else doc :: first_by_filename ({[filename doc]} ∪ seen) rest
  end.

(** The progress lines of the queries of a file, one per row. *)
Definition notices (queries_tsv : list (list string)) : list string :=
  (λ query_row, "Processed query " +:+ default "" (head query_row))
    <$> queries_tsv.

(** * Properties *)

(** ** Order and subtraction of floats *)

Section FloatFacts.
Import PyFloat.
Local Open Scope Z_scope.

Lemma digits2_pos_bounds (m : positive) :
  2 ^ (Zpos (digits2_pos m) - 1) <= Zpos m < 2 ^ Zpos (digits2_pos m).
Proof.
  induction m as [m IH|m IH|]; simpl digits2_pos.
  - rewrite Pos2Z.inj_succ, (Pos2Z.inj_xI m).
    replace (Z.succ (Zpos (digits2_pos m)) - 1) with (Z.succ (Zpos (digits2_pos m) - 1)) by lia.
    rewrite !Z.pow_succ_r by lia.
    generalize dependent (2 ^ (Z.pos (digits2_pos m) - 1)).
    generalize dependent (2 ^ Z.pos (digits2_pos m)). lia.
  - rewrite Pos2Z.inj_succ, (Pos2Z.inj_xO m).
    replace (Z.succ (Zpos (digits2_pos m)) - 1) with (Z.succ (Zpos (digits2_pos m) - 1)) by lia.
    rewrite !Z.pow_succ_r by lia.
    generalize dependent (2 ^ (Z.pos (digits2_pos m) - 1)).
    generalize dependent (2 ^ Z.pos (digits2_pos m)). lia.
  - simpl. lia.
Qed.

Lemma bounded_inv m e :
  bounded prec emax m e = true →
  emin <= e ∧ Zpos m < 2 ^ 53 ∧ (emin < e → 2 ^ 52 <= Zpos m).
Proof.
  unfold bounded, canonical_mantissa, fexp.
  intros [Hc _]%andb_true_iff. apply Z.eqb_eq in Hc.
  pose proof (digits2_pos_bounds m) as [Hlo Hhi].
  fold emin in Hc. unfold prec in Hc.
  assert (Zpos (digits2_pos m) <= 53 ∧ emin <= e ∧ (emin < e → Zpos (digits2_pos m) = 53)) as (Hd & He & Hn) by lia.
  split; [done|]. split.
  - eapply Z.lt_le_trans; [exact Hhi|]. apply Z.pow_le_mono_r; lia.
  - intros Hlt. rewrite (Hn Hlt) in Hlo. exact Hlo.
Qed.

Lemma scaled_lt_of_exponent m1 e1 m2 e2 :
  bounded prec emax m1 e1 = true → bounded prec emax m2 e2 = true →
  e1 < e2 →
  Zpos m1 * 2 ^ (e1 - emin) < Zpos m2 * 2 ^ (e2 - emin).
Proof.
  intros (He1 & Hm1 & _)%bounded_inv (He2 & _ & Hm2)%bounded_inv Hlt.
  specialize (Hm2 ltac:(lia)).
  replace (e2 - emin) with ((e1 - emin) + (e2 - e1)) by lia.
  rewrite Z.pow_add_r by lia.
  assert (0 < 2 ^ (e1 - emin)) by (apply Z.pow_pos_nonneg; lia).
  assert (2 ^ 1 <= 2 ^ (e2 - e1)) by (apply Z.pow_le_mono_r; lia).
  change (2 ^ 1) with 2 in *. change (2 ^ 53) with (2 * 2 ^ 52) in Hm1.
  set (c := 2 ^ 52) in *. set (A := 2 ^ (e1 - emin)) in *.
  set (B := 2 ^ (e2 - e1)) in *.
  assert (0 < c) by done.
  assert (Z.pos m1 * A < 2 * c * A) by (apply Z.mul_lt_mono_pos_r; lia).
  assert (c * (A * 2) <= Z.pos m2 * (A * B)).
  { apply Z.mul_le_mono_nonneg; [lia..|]. apply Z.mul_le_mono_nonneg_l; lia. }
  lia.
Qed.

Lemma compare_scaled x y :
  reading x → reading y → SFcompare x y = Some (scaled x ?= scaled y).
Proof.
  intros [Fx Vx] [Fy Vy].
  destruct x as [sx|sx| |sx mx ex], y as [sy|sy| |sy my ey]; try done;
    cbn [SFcompare scaled cond_Zopp valid_binary is_finite] in *.
  - destruct sy; cbn [cond_Zopp]; f_equal; symmetry.
    + apply Z.compare_gt_iff. pose proof (Z.pow_pos_nonneg 2 (ey - emin)). destruct (bounded_inv _ _ Vy). lia.
    + apply Z.compare_lt_iff. pose proof (Z.pow_pos_nonneg 2 (ey - emin)). destruct (bounded_inv _ _ Vy). lia.
  - destruct sx; cbn [cond_Zopp]; f_equal; symmetry.
    + apply Z.compare_lt_iff. pose proof (Z.pow_pos_nonneg 2 (ex - emin)). destruct (bounded_inv _ _ Vx). lia.
    + apply Z.compare_gt_iff. pose proof (Z.pow_pos_nonneg 2 (ex - emin)). destruct (bounded_inv _ _ Vx). lia.
  - pose proof (Z.pow_pos_nonneg 2 (ex - emin)) as Px.
    pose proof (Z.pow_pos_nonneg 2 (ey - emin)) as Py.
    destruct (bounded_inv _ _ Vx) as (Hex & _), (bounded_inv _ _ Vy) as (Hey & _).
    specialize (Px ltac:(lia) ltac:(lia)). specialize (Py ltac:(lia) ltac:(lia)).
    f_equal. destruct sx, sy; cbn [cond_Zopp].
    + destruct (Z.compare_spec ex ey) as [->|Hlt|Hgt].
      * rewrite Pos.compare_cont_spec. cbn [Pos.switch_Eq].
        destruct (Pos.compare_spec mx my) as [->|Hm|Hm]; cbn [CompOpp]; symmetry;
          [apply Z.compare_eq_iff|apply Z.compare_gt_iff|apply Z.compare_lt_iff];
          [done|apply Pos2Z.pos_lt_pos in Hm; nia..].
      * symmetry. apply Z.compare_gt_iff.
        pose proof (scaled_lt_of_exponent _ _ _ _ Vx Vy Hlt). lia.
      * symmetry. apply Z.compare_lt_iff.
        pose proof (scaled_lt_of_exponent _ _ _ _ Vy Vx Hgt). lia.
    + symmetry. apply Z.compare_lt_iff. lia.
    + symmetry. apply Z.compare_gt_iff. lia.
    + destruct (Z.compare_spec ex ey) as [->|Hlt|Hgt].
      * rewrite Pos.compare_cont_spec. cbn [Pos.switch_Eq].
        destruct (Pos.compare_spec mx my) as [->|Hm|Hm]; symmetry;
          [apply Z.compare_eq_iff|apply Z.compare_lt_iff|apply Z.compare_gt_iff];
          [done|apply Pos2Z.pos_lt_pos in Hm; nia..].
      * symmetry. apply Z.compare_lt_iff.
        by apply scaled_lt_of_exponent.
      * symmetry. apply Z.compare_gt_iff.
        pose proof (scaled_lt_of_exponent _ _ _ _ Vy Vx Hgt). lia.
Qed.

Lemma leb_scaled x y :
  reading x → reading y → leb x y = true ↔ scaled x <= scaled y.
Proof.
  intros Hx Hy. unfold leb, SFleb. rewrite (compare_scaled x y Hx Hy).
  destruct (Z.compare_spec (scaled x) (scaled y)); split; (done || lia).
Qed.

Lemma leb_refl x : reading x → leb x x = true.
Proof. intros Hx. apply leb_scaled; [done..|lia]. Qed.

Lemma leb_trans x y z :
  reading x → reading y → reading z →
  leb x y = true → leb y z = true → leb x z = true.
Proof.
  intros Hx Hy Hz. rewrite !leb_scaled by done. lia.
Qed.

Lemma shr_1_nonneg mrs : 0 <= shr_m mrs → 0 <= shr_m (shr_1 mrs).
Proof.
  destruct mrs as [m r s]. cbn [shr_m shr_1].
  destruct m as [|[p|p|]|[p|p|]]; cbn [shr_m]; lia.
Qed.

Lemma iter_shr_1_nonneg p mrs :
  0 <= shr_m mrs → 0 <= shr_m (iter_pos shr_1 p mrs).
Proof.
  revert mrs. induction p as [p IH|p IH|]; intros mrs H; cbn [iter_pos].
  - apply IH, IH. by apply shr_1_nonneg.
  - by apply IH, IH.
  - by apply shr_1_nonneg.
Qed.

Lemma shr_fexp_nonneg m e l :
  0 <= m → 0 <= shr_m (shr_fexp prec emax m e l).1.
Proof.
  intros Hm. unfold shr_fexp, shr.
  assert (0 <= shr_m (shr_record_of_loc m l)) as H0.
  { by destruct l as [|[]]. }
  destruct (fexp prec emax (Zdigits2 m + e) - e); cbn [fst]; [done| |done].
  by apply iter_shr_1_nonneg.
Qed.

Lemma round_nearest_even_nonneg m l : 0 <= m → 0 <= round_nearest_even m l.
Proof.
  intros Hm. unfold round_nearest_even.
  destruct l as [|[]]; [done| |done|lia]. destruct (Z.even m); lia.
Qed.

Lemma binary_round_aux_nonneg m e l :
  0 <= m → nonneg (binary_round_aux prec emax false m e l) = true.
Proof.
  intros Hm. unfold binary_round_aux.
  pose proof (shr_fexp_nonneg m e l Hm) as H1.
  destruct (shr_fexp prec emax m e l) as [mrs' e']. cbn [fst] in H1.
  pose proof (shr_fexp_nonneg _ e' loc_Exact
                (round_nearest_even_nonneg _ (loc_of_shr_record mrs') H1)) as H2.
  destruct (shr_fexp prec emax _ e' loc_Exact) as [mrs'' e'']. cbn [fst] in H2.
  destruct (shr_m mrs''); [done| |lia].
  by destruct (e'' <=? emax - prec).
Qed.

Lemma binary_normalize_nonneg M e :
  0 <= M → nonneg (binary_normalize prec emax M e false) = true.
Proof.
  intros HM. destruct M as [|m|m]; [done| |lia].
  unfold binary_normalize, binary_round.
  destruct (shl_align m e _) as [mz ez]. by apply binary_round_aux_nonneg.
Qed.

Lemma iter_xO_value m d : Zpos (Pos.iter xO m d) = Zpos m * 2 ^ Zpos d.
Proof.
  induction d as [|d IH] using Pos.peano_ind.
  - simpl. lia.
  - rewrite Pos.iter_succ, (Pos2Z.inj_xO (Pos.iter xO m d)), IH.
    rewrite Pos2Z.inj_succ, Z.pow_succ_r by lia. lia.
Qed.

Lemma shl_align_value m e ez :
  ez <= e → Zpos (shl_align m e ez).1 = Zpos m * 2 ^ (e - ez).
Proof.
  intros Hle. unfold shl_align.
  destruct (ez - e) as [|d|d] eqn:E; cbn [fst].
  - replace (e - ez) with 0 by lia. simpl. lia.
  - lia.
  - rewrite iter_xO_value. f_equal. f_equal. lia.
Qed.

Lemma leb_zero_nonneg r : nonneg r = true → leb zero r = true.
Proof. by destruct r as [[]|[]| |[] m e]. Qed.

Lemma sub_nonneg x y :
  reading x → reading y → leb x y = true → leb zero (sub y x) = true.
Proof.
  intros Hx Hy Hle. apply leb_zero_nonneg.
  apply (leb_scaled x y Hx Hy) in Hle.
  destruct Hx as [Fx Vx], Hy as [Fy Vy].
  destruct x as [sx|sx| |sx mx ex], y as [sy|sy| |sy my ey]; try done;
    cbn [sub SFsub scaled valid_binary] in *.
  - by destruct sy, sx.
  - destruct sy; [|done]. cbn [cond_Zopp] in Hle.
    pose proof (Z.pow_pos_nonneg 2 (ey - emin)).
    destruct (bounded_inv _ _ Vy). lia.
  - destruct sx; [done|]. cbn [cond_Zopp] in Hle.
    pose proof (Z.pow_pos_nonneg 2 (ex - emin)).
    destruct (bounded_inv _ _ Vx). lia.
  - apply binary_normalize_nonneg.
    destruct (bounded_inv _ _ Vx) as (Hex & _), (bounded_inv _ _ Vy) as (Hey & _).
    rewrite !shl_align_value by lia.
    set (ez := Z.min ey ex) in *.
    assert (0 < 2 ^ (ez - emin)) as Hz by (apply Z.pow_pos_nonneg; lia).
    assert (∀ e, ez <= e → 2 ^ (e - emin) = 2 ^ (e - ez) * 2 ^ (ez - emin)) as Hsplit.
    { intros e He. rewrite <-Z.pow_add_r by lia. f_equal. lia. }
    rewrite (Hsplit ex), (Hsplit ey) in Hle by lia.
    destruct sx, sy; cbn [cond_Zopp] in *; nia.
Qed.

Lemma digits2_pos_53 m :
  2 ^ 52 <= Zpos m < 2 ^ 53 → Zpos (digits2_pos m) = 53.
Proof.
  intros [Hlo Hhi]. pose proof (digits2_pos_bounds m) as [Dlo Dhi].
  destruct (Z.lt_trichotomy (Zpos (digits2_pos m)) 53) as [Hlt|[Heq|Hgt]]; [|done|].
  - assert (2 ^ Zpos (digits2_pos m) <= 2 ^ 52) by (apply Z.pow_le_mono_r; lia). lia.
  - assert (2 ^ 53 <= 2 ^ (Zpos (digits2_pos m) - 1)) by (apply Z.pow_le_mono_r; lia). lia.
Qed.

Lemma of_ticks_reading t : reading (of_ticks t).
Proof.
  split; [done|]. unfold of_ticks. cbn [valid_binary].
  unfold bounded, canonical_mantissa. rewrite digits2_pos_53; [done|].
  rewrite Z2Pos.id by lia. lia.
Qed.

Lemma of_ticks_mono a b : a <= b → leb (of_ticks a) (of_ticks b) = true.
Proof.
  intros Hab. apply leb_scaled; [apply of_ticks_reading..|].
  unfold of_ticks. cbn [scaled cond_Zopp]. rewrite !Z2Pos.id by lia.
  apply Z.mul_le_mono_nonneg_r; [|lia]. apply Z.pow_nonneg. lia.
Qed.
End FloatFacts.

(** ** The rows of one query *)

Section Writerows.
Variables (K : nat) (qid : string) (dur : spec_float).

Lemma writerows_length docs : length (writerows K qid dur docs) = length docs.
Proof. unfold writerows. by rewrite length_imap. Qed.

Lemma writerows_lookup docs i doc :
  docs !! i = Some doc →
  writerows K qid dur docs !! i
  = Some {| query_id := qid; iteration := 0;
            doc_id := PyStr.drop_last4 (filename doc);
            rank := i; score := Z.of_nat K - Z.of_nat i;
            run_tag := 0; duration_s := dur |}.
Proof. intros H. unfold writerows. by rewrite list_lookup_imap, H. Qed.

Lemma writerows_inv docs i r :
  writerows K qid dur docs !! i = Some r →
  ∃ doc, docs !! i = Some doc
         ∧ query_id r = qid ∧ iteration r = 0%Z
         ∧ doc_id r = PyStr.drop_last4 (filename doc)
         ∧ rank r = i ∧ score r = (Z.of_nat K - Z.of_nat i)%Z
         ∧ run_tag r = 0%Z ∧ duration_s r = dur.
Proof.
  unfold writerows. rewrite list_lookup_imap.
  destruct (docs !! i) as [doc|] eqn:E; simpl; [|done].
  intros [= <-]. exists doc. by repeat split.
Qed.

Lemma writerows_ranks docs :
  rank <$> writerows K qid dur docs = seq 0 (length docs).
Proof.
  apply list_eq. intros i. rewrite list_lookup_fmap.
  destruct (docs !! i) as [doc|] eqn:E.
  - rewrite (writerows_lookup _ _ _ E). simpl.
    symmetry. apply lookup_seq. split; [done|].
    by apply lookup_lt_Some in E.
  - assert (writerows K qid dur docs !! i = None) as ->.
    { apply lookup_ge_None. rewrite writerows_length. by apply lookup_ge_None. }
    simpl. symmetry. apply lookup_ge_None. rewrite length_seq.
    by apply lookup_ge_None.
Qed.

Lemma writerows_doc_ids docs :
  doc_id <$> writerows K qid dur docs
  = (λ doc, PyStr.drop_last4 (filename doc)) <$> docs.
Proof.
  apply list_eq. intros i. rewrite !list_lookup_fmap.
  destruct (docs !! i) as [doc|] eqn:E.
  - by rewrite (writerows_lookup _ _ _ E).
  - assert (writerows K qid dur docs !! i = None) as ->; [|done].
    apply lookup_ge_None. rewrite writerows_length. by apply lookup_ge_None.
Qed.

Lemma writerows_Forall (P : ResultRow → Prop) docs :
  (∀ i doc, docs !! i = Some doc →
     P {| query_id := qid; iteration := 0;
          doc_id := PyStr.drop_last4 (filename doc);
          rank := i; score := Z.of_nat K - Z.of_nat i;
          run_tag := 0; duration_s := dur |}) →
  Forall P (writerows K qid dur docs).
Proof.
  intros H. apply Forall_lookup. intros i r Hr.
  destruct (writerows_inv _ _ _ Hr) as (doc & Hd & _).
  rewrite (writerows_lookup _ _ _ Hd) in Hr. injection Hr as <-. eauto.
Qed.
End Writerows.

(** ** The deduplicating loop *)

Section Walk.
Import Recoll.
Context {W : Type} (db : Backend W).

Lemma walk_next_turn st st' : walk_next db st st' → turn db st st'.
Proof.
  unfold walk_next, walk_step.
  destruct (results st !! pos st) as [[doc|]|] eqn:E; try done.
  case_decide as Hin.
  - destruct (fetchone db (session st)) as [[v|e] w'] eqn:F; [|done].
    intros [= <-]. by eapply turn_backfill.
  - intros [= <-]. by eapply turn_accept.
Qed.

Lemma walk_step_Exhausted st :
  walk_step db st = Exhausted ↔ length (results st) ≤ pos st.
Proof.
  unfold walk_step. rewrite <-lookup_ge_None.
  destruct (results st !! pos st) as [[doc|]|]; [|done..].
  case_decide; [|done]. by destruct (fetchone db (session st)) as [[]].
Qed.

(** Running with fuel follows the turns. *)
Lemma walk_Finished fuel st st' :
  walk db fuel st = Finished st' →
  rtc (walk_next db) st st' ∧ walk_step db st' = Exhausted.
Proof.
  revert st. induction fuel as [|fuel IH]; intros st; simpl; [done|].
  destruct (walk_step db st) as [st1| |e] eqn:E; [|by intros [= <-]|done].
  intros H. destruct (IH _ H) as [R X]. split; [|done].
  by eapply rtc_l.
Qed.

Lemma walk_more_fuel fuel extra st :
  (∀ st', walk db fuel st ≠ Starved st') →
  walk db (fuel + extra) st = walk db fuel st.
Proof.
  revert st. induction fuel as [|fuel IH]; intros st H; simpl in *.
  - by destruct (H st).
  - destruct (walk_step db st); [by apply IH|done..].
Qed.

Section FromBatch.
Variables (batch : list Doc) (w0 : W).

(** Induction over the states of the loop, one turn at a time. *)
Lemma reachable_turn_ind (P : walk_state W → Prop) :
  P (walk_init batch w0) →
  (∀ st st', reachable db batch w0 st → turn db st st' → P st → P st') →
  ∀ st, reachable db batch w0 st → P st.
Proof.
  intros Hinit Hturn. unfold reachable. apply rtc_ind_r; [done|].
  intros st st' R Hstep HP. apply (Hturn st st'); auto using walk_next_turn.
Qed.

(** Every document walked was either kept or answered by one appended
    fetch, so the list is ahead of the iterator by as many places as
    the batch is ahead of the kept documents. *)
Lemma reachable_count st :
  reachable db batch w0 st →
  length (results st) + length (results_dedup st) = length batch + pos st
  ∧ pos st ≤ length (results st).
Proof.
  revert st. apply reachable_turn_ind; simpl.
  { rewrite length_fmap. lia. }
  intros st st' _ Hstep [Heq Hle].
  destruct Hstep as [doc v w' Hl _ _ ->|doc Hl _ ->]; simpl;
    apply lookup_lt_Some in Hl; rewrite ?length_app; simpl; lia.
Qed.

Lemma reachable_accepted_le st :
  reachable db batch w0 st → length (results_dedup st) ≤ length batch.
Proof. intros R. destruct (reachable_count _ R). lia. Qed.

(** [results_ids] holds exactly the filenames of the kept documents,
    and no filename was kept twice. *)
Lemma reachable_ids st :
  reachable db batch w0 st →
  (∀ x, x ∈ results_ids st ↔ x ∈ filename <$> results_dedup st)
  ∧ NoDup (filename <$> results_dedup st).
Proof.
  revert st. apply reachable_turn_ind; simpl.
  { split; [set_solver|constructor]. }
  intros st st' _ Hstep [Hids Hnd].
  destruct Hstep as [doc v w' _ _ _ ->|doc _ Hnew ->]; simpl; [done|].
  rewrite fmap_app. simpl. split.
  - intros x. rewrite elem_of_union, elem_of_singleton, elem_of_app,
      list_elem_of_singleton, Hids. tauto.
  - apply NoDup_app. split; [done|]. split; [|apply NoDup_singleton].
    intros x Hx. rewrite list_elem_of_singleton. intros ->.
    apply Hnew. by apply Hids.
Qed.

(** Every place the iterator has passed holds a document. *)
Lemma reachable_walked st i :
  reachable db batch w0 st → i < pos st →
  ∃ doc, results st !! i = Some (PyDoc doc).
Proof.
  intros R. revert i. revert st R.
  apply (reachable_turn_ind
           (λ st, ∀ i, i < pos st → ∃ doc, results st !! i = Some (PyDoc doc)));
    simpl; [lia|].
  intros st st' _ Hstep IH i Hi.
  destruct Hstep as [doc v w' Hl _ _ ->|doc Hl _ ->]; simpl in *.
  - destruct (decide (i = pos st)) as [->|].
    + exists doc. by apply lookup_app_l_Some.
    + destruct (IH i) as [d Hd]; [lia|]. exists d. by apply lookup_app_l_Some.
  - destruct (decide (i = pos st)) as [->|]; [by eauto|].
    apply IH. lia.
Qed.

End FromBatch.
End Walk.

(** ** Fuel, backfill and the end of the walk *)

Section Backfill.
Import Recoll.
Context {W : Type} (db : Backend W).

Lemma walk_ended_more_fuel fuel extra st :
  ended (walk db fuel st) → walk db (fuel + extra) st = walk db fuel st.
Proof.
  intros H. apply walk_more_fuel. intros st' E. by rewrite E in H.
Qed.

Lemma process_query_more_fuel K fuel extra row w :
  process_query db K fuel row w ≠ OutOfFuel →
  process_query db K (fuel + extra) row w = process_query db K fuel row w.
Proof.
  unfold process_query.
  destruct (row !! 0) as [qid|]; [|done].
  destruct (row !! 1) as [text|]; [|done].
  destruct (fetchmany db K _) as [batch w2].
  destruct (walk db fuel _) as [st|e st|st] eqn:E; [| |done]; intros _;
    by rewrite walk_ended_more_fuel, E by (by rewrite E).
Qed.

Lemma process_query_starved K fuel qid text rest w0 batch w st :
  fetchmany db K (execute db (normalize text) w0) = (batch, w) →
  walk db fuel (walk_init batch w) = Starved st →
  process_query db K fuel (qid :: text :: rest) w0 = OutOfFuel.
Proof. intros F Hw. unfold process_query. simpl. by rewrite F, Hw. Qed.

Lemma reachable_next batch w st st' :
  reachable db batch w st → walk_step db st = Next st' →
  reachable db batch w st'.
Proof. intros R Hs. eapply rtc_r; [exact R|exact Hs]. Qed.

(** The list is the batch followed by what the backfill fetches returned,
    in the order of the calls. *)
Lemma reachable_fetches batch w st :
  reachable db batch w st →
  ∃ vs, results st = (PyDoc <$> batch) ++ vs
        ∧ session st = after_fetches db (length vs) w
        ∧ ∀ i v, vs !! i = Some v → nth_fetch db i w = Returns v.
Proof.
  revert st. apply reachable_turn_ind; simpl.
  { exists []. rewrite app_nil_r. split; [done|]. split; [done|].
    intros i v Hi. by rewrite lookup_nil in Hi. }
  intros st st' _ [doc v w' _ _ F ->|doc _ _ ->] (vs & Hr & Hs & Hv); simpl.
  - exists (vs ++ [v]). rewrite Hr, <-app_assoc. split; [done|].
    rewrite length_app, Nat.add_1_r. simpl. rewrite <-Hs, F. split; [done|].
    intros i v' [Hi|[Hle Hi]]%lookup_app_Some; [by apply Hv|].
    destruct (i - length vs) as [|k] eqn:Hk; [|done].
    simpl in Hi. injection Hi as <-.
    assert (i = length vs) as -> by lia.
    unfold nth_fetch. by rewrite <-Hs, F.
  - by exists vs.
Qed.

(** If the [n]-th backfill fetch says that nothing is left, no state of the
    walk has the iterator past the place that fetch fills. *)
Lemma reachable_pos_bound batch w n st :
  end_of_results (nth_fetch db n w) →
  reachable db batch w st → pos st ≤ length batch + n.
Proof.
  intros Heor R.
  destruct (decide (pos st ≤ length batch + n)) as [|Hgt]; [done|].
  destruct (reachable_walked db batch w st (length batch + n) R) as [doc Hdoc];
    [lia|].
  destruct (reachable_fetches batch w st R) as (vs & Hr & _ & Hv).
  rewrite Hr, lookup_app_r in Hdoc by (rewrite length_fmap; lia).
  rewrite length_fmap in Hdoc.
  replace (length batch + n - length batch) with n in Hdoc by lia.
  apply Hv in Hdoc. by rewrite Hdoc in Heor.
Qed.

Lemma walk_ends_within batch w n m st :
  end_of_results (nth_fetch db n w) →
  reachable db batch w st →
  length batch + n + 1 ≤ pos st + m →
  ended (walk db m st).
Proof.
  intros Heor. revert st. induction m as [|m IH]; intros st R Hm.
  - pose proof (reachable_pos_bound batch w n st Heor R). lia.
  - simpl. destruct (walk_step db st) as [st'| |e] eqn:E; [|done..].
    apply IH; [by eapply reachable_next|].
    apply walk_next_turn in E. destruct E as [? ? ? _ _ _ ->|? _ _ ->]; simpl; lia.
Qed.
End Backfill.

(** ** The two loop bodies, read backwards from a completed query *)

Lemma docfetcher_done {W : Type} (s : Docfetcher.Searcher W) K row w p :
  Docfetcher.process_query s K row w = Done p →
  ∃ qid text rest,
    row = qid :: text :: rest
    ∧ world p = (Docfetcher.search s (Docfetcher.normalize text) w).2
    ∧ rows p = writerows K qid
                 (PyFloat.sub (Docfetcher.now s (world p)) (Docfetcher.now s w))
                 (take K (Docfetcher.search s (Docfetcher.normalize text) w).1).
Proof.
  unfold Docfetcher.process_query.
  destruct row as [|qid [|text rest]]; simpl; [done..|].
  destruct (Docfetcher.search s (Docfetcher.normalize text) w) as [found w1] eqn:E.
  intros [= <-]. exists qid, text, rest. simpl. by rewrite ?E.
Qed.

Lemma recoll_done {W : Type} (db : Recoll.Backend W) K fuel row w p :
  Recoll.process_query db K fuel row w = Done p →
  ∃ qid text rest batch w2 st,
    row = qid :: text :: rest
    ∧ Recoll.fetchmany db K (Recoll.execute db (Recoll.normalize text) w)
      = (batch, w2)
    ∧ Recoll.walk db fuel (Recoll.walk_init batch w2) = Recoll.Finished st
    ∧ world p = Recoll.close db (Recoll.session st)
    ∧ rows p = writerows K qid
                 (PyFloat.sub (Recoll.now db (world p)) (Recoll.now db w))
                 (Recoll.results_dedup st).
Proof.
  unfold Recoll.process_query.
  destruct row as [|qid [|text rest]]; simpl; [done..|].
  destruct (Recoll.fetchmany db K _) as [batch w2] eqn:F.
  destruct (Recoll.walk db fuel _) as [st|e st|st] eqn:Wk; [|done..].
  intros [= <-]. exists qid, text, rest, batch, w2, st. simpl. done.
Qed.

(** [query_row[0]] and [query_row[1]] on a row that is too short. *)
Lemma short_row_raises (row : list string) :
  length row < 2 →
  (∀ (W : Type) (s : Docfetcher.Searcher W) K w,
     Docfetcher.process_query s K row w = Raised IndexError)
  ∧ (∀ (W : Type) (db : Recoll.Backend W) K fuel w,
       Recoll.process_query db K fuel row w = Raised IndexError).
Proof.
  destruct row as [|qid [|text rest]]; simpl; [done..|lia].
Qed.

(** A finished walk went through reachable states only and stopped at the
    end of the list. *)
Lemma finished_reachable {W : Type} (db : Recoll.Backend W) fuel batch w st :
  Recoll.walk db fuel (Recoll.walk_init batch w) = Recoll.Finished st →
  Recoll.reachable db batch w st
  ∧ Recoll.pos st = length (Recoll.results st).
Proof.
  intros [R X]%walk_Finished. split; [done|].
  apply walk_step_Exhausted in X.
  destruct (reachable_count db batch w st R). lia.
Qed.

(** The clock of the session only moves forward during the walk. *)
Lemma reachable_clock {W : Type} (db : Recoll.Backend W) batch w st :
  Recoll.monotonic db → Recoll.reachable db batch w st →
  PyFloat.leb (Recoll.now db w) (Recoll.now db (Recoll.session st)) = true.
Proof.
  intros (Hread & _ & _ & Hone & _). revert st.
  apply reachable_turn_ind; simpl; [by apply leb_refl|].
  intros st st' _ [doc v w' _ _ F ->|doc _ _ ->] IH; simpl; [|done].
  specialize (Hone (Recoll.session st)). rewrite F in Hone. simpl in Hone.
  by eapply leb_trans; [..|exact IH|exact Hone].
Qed.

(** A finished walk has replaced every duplicate it met. *)
Lemma finished_unreplaced {W : Type} (db : Recoll.Backend W) fuel batch w st :
  Recoll.walk db fuel (Recoll.walk_init batch w) = Recoll.Finished st →
  Recoll.unreplaced st = 0.
Proof.
  intros [R Hpos]%finished_reachable. unfold Recoll.unreplaced.
  destruct (filter _ _) as [|v vs] eqn:E; [done|].
  assert (v ∈ filter (λ v, v = Recoll.PyNone) (Recoll.results st)) as Hv.
  { rewrite E. by left. }
  apply list_elem_of_filter in Hv as [-> Hin].
  apply list_elem_of_lookup in Hin as [i Hi].
  destruct (reachable_walked db batch w st i R) as [doc Hdoc]; [|congruence].
  rewrite Hpos. by apply lookup_lt_Some in Hi.
Qed.

(** ** A run over a query file with a malformed row *)

Lemma query_loop_stops_at_raise {W : Type}
    (body : list string → W → outcome (processed W)) e pre bad post w :
  (∀ w', body bad w' = Raised e) →
  let r := query_loop body pre w in
  let r' := query_loop body (pre ++ bad :: post) w in
  written r' = written r
  ∧ printed r' = printed r
  ∧ ending r' = match ending r with Completed => Crashed e | s => s end.
Proof.
  intros Hbad. revert w. induction pre as [|row pre IH]; intros w; simpl.
  - by rewrite Hbad.
  - destruct (body row w) as [p| |]; simpl; [|done..].
    destruct (IH (world p)) as (-> & -> & ->). done.
Qed.

(** ** Query text *)

Lemma replace_char_translate (c c' : ascii) (s : string) :
  PyStr.replace (String c EmptyString) (String c' EmptyString) s
  = PyStr.translate c c' s.
Proof.
  assert (∀ t, String.prefix "" t = true) as Hnil by (by intros [|]).
  unfold PyStr.replace.
  induction s as [|x s IH]; [done|].
  cbn [PyStr.replace_from PyStr.translate String.prefix String.length].
  rewrite Nat.sub_diag.
  destruct (ascii_dec c x) as [->|Hne].
  - rewrite Ascii.eqb_refl, Hnil. simpl. by rewrite IH.
  - destruct (Ascii.eqb_spec x c) as [->|_]; [done|]. by rewrite IH.
Qed.

(** ** Lists *)

(** Where [f] gives no value twice on a list, equal values come from equal
    elements. *)
Lemma NoDup_fmap_inj_on {A B : Type} (f : A → B) (g : A → B) (l : list A) :
  NoDup (f <$> l) →
  ∀ x y, x ∈ l → y ∈ l → f x = f y → g x = g y.
Proof.
  intros Hnd x y [i Hi]%list_elem_of_lookup [j Hj]%list_elem_of_lookup Hxy.
  assert (i = j) as ->.
  { eapply NoDup_lookup; [exact Hnd|rewrite list_lookup_fmap, Hi; done|].
    rewrite list_lookup_fmap, Hj. simpl. by rewrite Hxy. }
  congruence.
Qed.

(** ** The backends of the examples *)

Lemma cursor_fetchmany_bounded eor : Recoll.fetchmany_bounded (Cursor.backend eor).
Proof. intros n c. simpl. rewrite length_take. lia. Qed.

Lemma cursor_monotonic eor : Recoll.monotonic (Cursor.backend eor).
Proof.
  split; [intros w; apply of_ticks_reading|].
  repeat split; intros; simpl; try (apply of_ticks_mono; lia).
  destruct (Cursor.pending w); simpl; apply of_ticks_mono; lia.
Qed.

(** The recoll run over [long_answer] completes. *)
Lemma long_answer_done :
  match Recoll.process_query (Cursor.backend (Recoll.Raises StopIteration))
          MAX_RANK 200 ["1"; "foo bar"] (Cursor.fresh long_answer) with
  | Done _ => True
  | _ => False
  end.
Proof. vm_compute. exact I. Qed.

(** The recoll run over [long_answer]: the batch is the first hundred
    results, and the walk keeps [long_kept]. *)
Lemma long_answer_walk batch w2 st :
  Recoll.fetchmany (Cursor.backend (Recoll.Raises StopIteration)) MAX_RANK
    (Recoll.execute (Cursor.backend (Recoll.Raises StopIteration))
       (Recoll.normalize "foo bar") (Cursor.fresh long_answer)) = (batch, w2) →
  Recoll.walk (Cursor.backend (Recoll.Raises StopIteration)) 200
    (Recoll.walk_init batch w2) = Recoll.Finished st →
  Recoll.results_dedup st = long_kept
  ∧ Cursor.clock (Recoll.session st) = 3%Z.
Proof.
  intros F Hw.
  assert ((batch, w2)
          = (take MAX_RANK long_answer,
             Cursor.advance (drop MAX_RANK long_answer)
               (Cursor.advance long_answer (Cursor.fresh long_answer)))) as Hbw
    by (by rewrite <-F).
  injection Hbw as -> ->.
  apply (f_equal (λ r, match r with
                       | Recoll.Finished st' =>
                           Some (Recoll.results_dedup st',
                                 Cursor.clock (Recoll.session st'))
                       | _ => None
                       end)) in Hw.
  match type of Hw with
  | ?run = _ =>
      assert (run = Some (long_kept, 3%Z)) as Ha by (vm_compute; reflexivity)
  end.
  rewrite Ha in Hw. injection Hw as Hkept Hclock.
  split; symmetry; assumption.
Qed.

Lemma fixed_monotonic index : Docfetcher.monotonic (Fixed.searcher index).
Proof.
  split; [intros w; apply of_ticks_reading|].
  intros text t. simpl. apply of_ticks_mono. lia.
Qed.

(** On a backend that gives the same document at every fetch, a walk that
    has accepted the document and has a place left to read stays in that
    condition, turn after turn. *)
Lemma repeating_walk_starves (d : Doc) fuel (st : Recoll.walk_state Z) :
  (∀ i v, Recoll.results st !! i = Some v → v = Recoll.PyDoc d) →
  Recoll.pos st < length (Recoll.results st) →
  filename d ∈ Recoll.results_ids st →
  ∃ st', Recoll.walk (Repeating.backend d) fuel st = Recoll.Starved st'.
Proof.
  revert st. induction fuel as [|fuel IH]; intros st Hall Hpos Hin; simpl.
  { by eexists. }
  unfold Recoll.walk_step.
  destruct (lookup_lt_is_Some_2 _ _ Hpos) as [v Hv].
  rewrite Hv, (Hall _ _ Hv), decide_True by done. simpl.
  apply IH; simpl; [|rewrite length_app; simpl; lia|done].
  intros i v' [Hi|[_ Hi]]%lookup_app_Some; [by eapply Hall|].
  destruct (i - _) as [|k]; [|done]. simpl in Hi. by injection Hi as <-.
Qed.

(** ** The claims *)

(** C1. The walk stops as soon as K unique documents have been accepted:
    the initial batch [fetchmany(K)] holds at most K documents and every
    backfill fetch answers one discarded duplicate, so a state with K
    accepted documents has the iterator at the end of the list and the loop
    is over.  For the result sequence D1, D2, D1, D3, D4 of the backend and
    K = 3 the initial batch is [D1, D2, D1], the backfill fetch for the
    duplicate brings D3, the accepted order is [D1, D2, D3] with ranks
    0, 1, 2, and D4 is left unfetched: it is in no row. *)
Theorem dedup_stops_once_K_accepted :
  (∀ (W : Type) (db : Recoll.Backend W) K w batch w' st,
     Recoll.fetchmany_bounded db →
     Recoll.fetchmany db K w = (batch, w') →
     Recoll.reachable db batch w' st →
     length (Recoll.results_dedup st) = K →
     Recoll.walk_step db st = Recoll.Exhausted)
  ∧ (∃ st,
       Recoll.walk (Cursor.backend (Recoll.Raises StopIteration)) 5
         (Recoll.walk_init [D1; D2; D1] (Cursor.midway [D3; D4]))
       = Recoll.Finished st
       ∧ Recoll.results_dedup st = [D1; D2; D3]
       ∧ Cursor.pending (Recoll.session st) = [D4])
  ∧ (∃ p,
       Recoll.process_query (Cursor.backend (Recoll.Raises StopIteration)) 3 5
         ["1"; "foo bar"] (Cursor.fresh [D1; D2; D1; D3; D4]) = Done p
       ∧ doc_id <$> rows p = ["D1"; "D2"; "D3"]
       ∧ rank <$> rows p = [0; 1; 2])
  ∧ (∃ st,
       (Recoll.fetchmany (Cursor.backend (Recoll.Raises StopIteration)) 3
          (Recoll.execute (Cursor.backend (Recoll.Raises StopIteration))
             (Recoll.normalize "foo bar")
             (Cursor.fresh [D1; D2; D1; D3; D4]))).1 = [D1; D2; D1]
       ∧ Recoll.walk (Cursor.backend (Recoll.Raises StopIteration)) 5
           (Recoll.walk_init [D1; D2; D1]
              (Recoll.fetchmany (Cursor.backend (Recoll.Raises StopIteration)) 3
                 (Recoll.execute (Cursor.backend (Recoll.Raises StopIteration))
                    (Recoll.normalize "foo bar")
                    (Cursor.fresh [D1; D2; D1; D3; D4]))).2)
         = Recoll.Finished st
       ∧ Recoll.results_dedup st = [D1; D2; D3]
       ∧ Cursor.pending (Recoll.session st) = [D4]).
Proof.
  split; [|split; [|split]].
  - intros W db K w batch w' st Hb F R HK.
    apply walk_step_Exhausted.
    destruct (reachable_count db batch w' st R) as [Hc _].
    specialize (Hb K w). rewrite F in Hb. simpl in Hb. lia.
  - eexists. split; [vm_compute; reflexivity|]. split; reflexivity.
  - eexists. split; [vm_compute; reflexivity|]. split; reflexivity.
  - eexists. split; [reflexivity|]. split; [vm_compute; reflexivity|].
    split; reflexivity.
Qed.

(** C1 on the scenario: after the four turns that accept D1, D2,
    D3 the three accepted documents make up K = 3, and the loop is at its
    end. *)
Lemma dedup_stops_once_K_accepted_witness :
  let db := Cursor.backend (Recoll.Raises StopIteration) in
  let fetched := Recoll.fetchmany db 3 (Cursor.midway [D1; D2; D1; D3; D4]) in
  ∃ st,
    fetched.1 = [D1; D2; D1]
    ∧ Recoll.walk db 5 (Recoll.walk_init fetched.1 fetched.2) = Recoll.Finished st
    ∧ length (Recoll.results_dedup st) = 3
    ∧ Recoll.walk_step db st = Recoll.Exhausted.
Proof.
  eexists. split; [reflexivity|]. split; [vm_compute; reflexivity|].
  split; [reflexivity|].
  eapply (proj1 dedup_stops_once_K_accepted Cursor.cursor
            (Cursor.backend (Recoll.Raises StopIteration)) 3
            (Cursor.midway [D1; D2; D1; D3; D4]) [D1; D2; D1]
            (Cursor.advance [D3; D4] (Cursor.midway [D1; D2; D1; D3; D4]))).
  - apply cursor_fetchmany_bounded.
  - reflexivity.
  - refine (proj1 (walk_Finished _ 5 _ _ _)). vm_compute. reflexivity.
  - reflexivity.
Defined.

(** C2: what the code does on the batch [D1, D1, D1] when every backfill
    fetch finds nothing left.  If [fetchone()] raises, the exception leaves
    the loop at the first duplicate; if it returns [None], the [None]s are
    appended and [doc.filename] raises on the first of them.  Either way the
    query writes no row and the run ends with the exception. *)
Theorem backfill_exhaustion_raises :
  (∀ fuel,
     Recoll.process_query (Cursor.backend (Recoll.Raises StopIteration))
       MAX_RANK (2 + fuel) ["1"; "foo bar"] (Cursor.fresh [D1; D1; D1])
     = Raised StopIteration)
  ∧ (∀ fuel,
       Recoll.process_query (Cursor.backend (Recoll.Returns Recoll.PyNone))
         MAX_RANK (4 + fuel) ["1"; "foo bar"] (Cursor.fresh [D1; D1; D1])
       = Raised AttributeError)
  ∧ (∀ fuel eor,
       Recoll.end_of_results eor →
       let r := Recoll.main (Cursor.backend eor) fuel
                  [["1"; "foo bar"]; ["2"; "baz"]] (Cursor.fresh [D1; D1; D1]) in
       written r = [] ∧ printed r = [] ∧ ending r ≠ Completed).
Proof.
  split; [|split].
  - intros fuel. rewrite process_query_more_fuel; by vm_compute.
  - intros fuel. rewrite process_query_more_fuel; by vm_compute.
  - intros fuel eor Heor.
    assert (∀ f, f = fuel →
      Recoll.process_query (Cursor.backend eor) MAX_RANK f ["1"; "foo bar"]
        (Cursor.fresh [D1; D1; D1]) = OutOfFuel
      ∨ ∃ e, Recoll.process_query (Cursor.backend eor) MAX_RANK f
               ["1"; "foo bar"] (Cursor.fresh [D1; D1; D1]) = Raised e) as H.
    { intros f _. destruct (decide (f < 4)) as [Hlt|Hge].
      - destruct eor as [[doc|]|e]; [done| |];
          do 4 (destruct f as [|f];
                [vm_compute; by eauto|]); lia.
      - replace f with (4 + (f - 4)) by lia. right.
        destruct eor as [[doc|]|e]; [done| |];
          rewrite process_query_more_fuel by (by vm_compute);
          vm_compute; by eauto. }
    unfold Recoll.main, Recoll.main_with. simpl.
    destruct (H fuel eq_refl) as [->|[e ->]]; simpl; by repeat split.
Qed.

(** C3, as stated, fails: the loop makes as many backfill fetches as it
    meets duplicates, with no bound.  On a backend that hands over a batch
    of one document repeated and gives that document again at every fetch,
    no amount of fuel brings the query to an end. *)
Lemma repeated_duplicate_never_ends :
  Recoll.fetchmany_bounded (Repeating.backend D1)
  ∧ (∀ fuel,
       Recoll.process_query (Repeating.backend D1) MAX_RANK fuel
         ["1"; "foo bar"] 0%Z = OutOfFuel)
  ∧ (∀ fuel,
       ¬ Recoll.ended
           (Recoll.walk (Repeating.backend D1) fuel
              (Recoll.walk_init (replicate MAX_RANK D1) 2%Z))).
Proof.
  assert (∀ fuel, ∃ st',
    Recoll.walk (Repeating.backend D1) fuel
      (Recoll.walk_init (replicate MAX_RANK D1) 2%Z) = Recoll.Starved st') as H.
  { intros [|fuel]; [by eexists|].
    change (Recoll.walk _ (S fuel) ?st)
      with (Recoll.walk (Repeating.backend D1) fuel
              {| Recoll.results := Recoll.PyDoc <$> replicate MAX_RANK D1;
                 Recoll.pos := 1;
                 Recoll.results_ids := {[filename D1]} ∪ ∅;
                 Recoll.results_dedup := [D1];
                 Recoll.session := 2%Z |}).
    apply repeating_walk_starves;
      cbn [Recoll.results Recoll.pos Recoll.results_ids].
    - intros i v Hi. rewrite fmap_replicate in Hi.
      by apply lookup_replicate in Hi as [-> _].
    - rewrite length_fmap, length_replicate. unfold MAX_RANK. lia.
    - set_solver. }
  split; [|split].
  - intros n t. simpl. by rewrite length_replicate.
  - intros fuel. destruct (H fuel) as [st' Hst'].
    eapply (process_query_starved _ _ _ _ _ _ _ (replicate MAX_RANK D1) 2%Z);
      [reflexivity|exact Hst'].
  - intros fuel Hend. destruct (H fuel) as [st' Hst'].
    by rewrite Hst' in Hend.
Qed.

(** C3, amended.  The walk comes to an end whenever some backfill fetch
    says that nothing is left, by raising or by returning [None]: if the
    [n]-th fetch does, the walk over a batch of [b] documents is over within
    [b + n + 1] turns, and so is the query.  Nothing else bounds it: every
    duplicate met costs one fetch, and the harness counts neither. *)
Theorem dedup_ends_when_backend_runs_out
    {W : Type} (db : Recoll.Backend W) (batch : list Doc) (w : W) (n : nat) :
  Recoll.end_of_results (Recoll.nth_fetch db n w) →
  Recoll.ended (Recoll.walk db (length batch + n + 1) (Recoll.walk_init batch w))
  ∧ (∀ extra qid text rest w0,
       Recoll.fetchmany db MAX_RANK
         (Recoll.execute db (Recoll.normalize text) w0) = (batch, w) →
       Recoll.process_query db MAX_RANK (length batch + n + 1 + extra)
         (qid :: text :: rest) w0 ≠ OutOfFuel).
Proof.
  intros Heor.
  assert (Recoll.ended
            (Recoll.walk db (length batch + n + 1) (Recoll.walk_init batch w)))
    as Hend.
  { eapply walk_ends_within; [exact Heor|apply rtc_refl|simpl; lia]. }
  split; [done|].
  intros extra qid text rest w0 F.
  unfold Recoll.process_query. simpl. rewrite F.
  rewrite walk_ended_more_fuel by done.
  by destruct (Recoll.walk db _ _).
Qed.

(** C3, amended, on the batch [D1, D1, D1] of a backend with nothing more:
    the first backfill fetch says so, and the walk is over within
    3 + 0 + 1 turns. *)
Lemma dedup_ends_when_backend_runs_out_witness :
  Recoll.ended
    (Recoll.walk (Cursor.backend (Recoll.Returns Recoll.PyNone)) 4
       (Recoll.walk_init [D1; D1; D1] (Cursor.midway []))).
Proof.
  refine (proj1 (dedup_ends_when_backend_runs_out
                   (Cursor.backend (Recoll.Returns Recoll.PyNone))
                   [D1; D1; D1] (Cursor.midway []) 0 _)).
  simpl. exact I.
Defined.

(** C4, as stated, fails in both harnesses.  DocFetcher answering with the
    same file twice gives two rows with the [doc_id] "A"; recoll answering
    with "a.txt" and "a.pdf" keeps both, as the filenames differ, and writes
    the [doc_id] "a" twice. *)
Lemma duplicate_doc_ids_emitted :
  (doc_id <$> written (Docfetcher.main
                         (Fixed.searcher
                            (λ _, [{| filename := "A.ext" |};
                                   {| filename := "A.ext" |}]))
                         [["1"; "foo bar"]] 0%Z) = ["A"; "A"])
  ∧ (doc_id <$> written (Recoll.main
                           (Cursor.backend (Recoll.Raises StopIteration)) 5
                           [["1"; "foo bar"]]
                           (Cursor.fresh [{| filename := "a.txt" |};
                                          {| filename := "a.pdf" |}]))
     = ["a"; "a"])
  ∧ ¬ NoDup ["A"; "A"] ∧ ¬ NoDup ["a"; "a"].
Proof.
  split; [vm_compute; reflexivity|]. split; [vm_compute; reflexivity|].
  split; intros [H _]%NoDup_cons; apply H; by left.
Qed.

(** C4, amended.  The deduplicating harness never writes two rows of a query
    for documents with the same filename; their [doc_id]s, the filenames
    without the last four characters, are pairwise distinct whenever cutting
    those characters keeps the accepted filenames apart.  The truncating
    harness does not deduplicate: its [doc_id]s are those of the first
    [MAX_RANK] results of the backend, in order, repeated where the backend
    repeats them. *)
Theorem rows_distinct_by_filename :
  (∀ (W : Type) (db : Recoll.Backend W) fuel row w p,
     Recoll.process_query db MAX_RANK fuel row w = Done p →
     ∃ qid text rest batch w2 st,
       row = qid :: text :: rest
       ∧ Recoll.fetchmany db MAX_RANK
           (Recoll.execute db (Recoll.normalize text) w) = (batch, w2)
       ∧ Recoll.walk db fuel (Recoll.walk_init batch w2) = Recoll.Finished st
       ∧ doc_id <$> rows p
         = (λ doc, PyStr.drop_last4 (filename doc)) <$> Recoll.results_dedup st
       ∧ NoDup (filename <$> Recoll.results_dedup st)
       ∧ ((∀ d d', d ∈ Recoll.results_dedup st → d' ∈ Recoll.results_dedup st →
             PyStr.drop_last4 (filename d) = PyStr.drop_last4 (filename d') →
             filename d = filename d') →
          NoDup (doc_id <$> rows p)))
  ∧ (∀ (W : Type) (s : Docfetcher.Searcher W) row w p,
       Docfetcher.process_query s MAX_RANK row w = Done p →
       ∃ qid text rest,
         row = qid :: text :: rest
         ∧ doc_id <$> rows p
           = (λ doc, PyStr.drop_last4 (filename doc))
               <$> take MAX_RANK
                     (Docfetcher.search s (Docfetcher.normalize text) w).1).
Proof.
  split.
  - intros W db fuel row w p
      (qid & text & rest & batch & w2 & st & -> & F & Hw & _ & ->)%recoll_done.
    exists qid, text, rest, batch, w2, st.
    destruct (finished_reachable _ _ _ _ _ Hw) as [R _].
    destruct (reachable_ids db batch w2 st R) as [_ Hnd].
    rewrite writerows_doc_ids. repeat (split; [done|]).
    intros Hinj.
    rewrite (list_fmap_compose filename PyStr.drop_last4).
    apply NoDup_fmap_2_strong; [|done].
    intros x y [d [-> Hd]]%list_elem_of_fmap [d' [-> Hd']]%list_elem_of_fmap.
    by apply Hinj.
  - intros W s row w p (qid & text & rest & -> & _ & ->)%docfetcher_done.
    exists qid, text, rest. by rewrite writerows_doc_ids.
Qed.

(** C4, amended, on a recoll answer of 101 results that begins with the same
    file twice: the repeat is dropped, the 101st result takes its place, and
    the hundred [doc_id]s written are pairwise distinct. *)
Lemma rows_distinct_by_filename_witness :
  match Recoll.process_query (Cursor.backend (Recoll.Raises StopIteration))
          MAX_RANK 200 ["1"; "foo bar"] (Cursor.fresh long_answer) with
  | Done p => length (rows p) = 100 ∧ NoDup (doc_id <$> rows p)
  | _ => False
  end.
Proof.
  pose proof long_answer_done as Hdone.
  destruct (Recoll.process_query _ _ _ _ _) as [p| |] eqn:E; [|done..].
  destruct (proj1 rows_distinct_by_filename _ _ _ _ _ _ E)
    as (qid & text & rest & batch & w2 & st & [= <- <- <-] & F & Hw & Hids & _ & Hinj).
  destruct (long_answer_walk _ _ _ F Hw) as [Hkept _].
  rewrite Hkept in Hids, Hinj. split.
  - rewrite <-(length_fmap doc_id), Hids, length_fmap. reflexivity.
  - apply Hinj. apply NoDup_fmap_inj_on.
    apply (bool_decide_unpack _). vm_compute. exact I.
Defined.

(** C5. A query gives between 0 and [MAX_RANK] rows: in the truncating
    harness because the result list is cut at [MAX_RANK], in the
    deduplicating harness because [fetchmany(MAX_RANK)] hands over at most
    [MAX_RANK] documents and the walk accepts no more than it was handed. *)
Theorem rows_per_query_at_most_MAX_RANK :
  (∀ (W : Type) (s : Docfetcher.Searcher W) row w p,
     Docfetcher.process_query s MAX_RANK row w = Done p →
     0 ≤ length (rows p) ≤ MAX_RANK)
  ∧ (∀ (W : Type) (db : Recoll.Backend W) fuel row w p,
       Recoll.fetchmany_bounded db →
       Recoll.process_query db MAX_RANK fuel row w = Done p →
       0 ≤ length (rows p) ≤ MAX_RANK).
Proof.
  split.
  - intros W s row w p (qid & text & rest & _ & _ & ->)%docfetcher_done.
    rewrite writerows_length, length_take. lia.
  - intros W db fuel row w p Hb
      (qid & text & rest & batch & w2 & st & _ & F & Hw & _ & ->)%recoll_done.
    rewrite writerows_length.
    apply finished_reachable in Hw as [R _].
    apply reachable_accepted_le in R.
    specialize (Hb MAX_RANK (Recoll.execute db (Recoll.normalize text) w)).
    rewrite F in Hb. simpl in Hb. lia.
Qed.

(** C5 on two runs: DocFetcher's 103 results are cut to 100 rows, and the
    101 results of recoll, one of them a repeat, give 100 rows. *)
Lemma rows_per_query_at_most_MAX_RANK_witness :
  match Docfetcher.process_query (Fixed.searcher (λ _, many_copies)) MAX_RANK
          ["1"; "foo bar"] 0%Z,
        Recoll.process_query (Cursor.backend (Recoll.Raises StopIteration))
          MAX_RANK 200 ["1"; "foo bar"] (Cursor.fresh long_answer) with
  | Done p, Done q =>
      (length (rows p) = 100 ∧ length (rows p) ≤ MAX_RANK)
      ∧ (length (rows q) = 100 ∧ length (rows q) ≤ MAX_RANK)
  | _, _ => False
  end.
Proof.
  destruct (Docfetcher.process_query _ _ _ _) as [p| |] eqn:Ep;
    [|vm_compute in Ep; discriminate..].
  pose proof long_answer_done as Hdone.
  destruct (Recoll.process_query _ _ _ _ _) as [q| |] eqn:Eq; [|done..].
  split; split.
  - vm_compute in Ep. by injection Ep as <-.
  - apply (proj1 rows_per_query_at_most_MAX_RANK _ _ _ _ _ Ep).
  - apply recoll_done in Eq
      as (qid & text & rest & batch & w2 & st & [= <- <- <-] & F & Hw & _ & ->).
    destruct (long_answer_walk _ _ _ F Hw) as [-> _].
    by rewrite writerows_length.
  - apply (proj2 rows_per_query_at_most_MAX_RANK _ _ _ _ _ _
             (cursor_fetchmany_bounded _) Eq).
Defined.

(** C6. The rows of a query carry the ranks 0, 1, ..., n-1 in the order they
    are written, and every row has [score = MAX_RANK - rank]; in both
    harnesses. *)
Theorem ranks_contiguous_and_scores_complement :
  (∀ (W : Type) (s : Docfetcher.Searcher W) row w p,
     Docfetcher.process_query s MAX_RANK row w = Done p →
     rank <$> rows p = seq 0 (length (rows p))
     ∧ Forall (λ r, score r = (Z.of_nat MAX_RANK - Z.of_nat (rank r))%Z) (rows p))
  ∧ (∀ (W : Type) (db : Recoll.Backend W) fuel row w p,
       Recoll.process_query db MAX_RANK fuel row w = Done p →
       rank <$> rows p = seq 0 (length (rows p))
       ∧ Forall (λ r, score r = (Z.of_nat MAX_RANK - Z.of_nat (rank r))%Z) (rows p)).
Proof.
  split.
  - intros W s row w p (qid & text & rest & _ & _ & ->)%docfetcher_done.
    rewrite writerows_length. split; [apply writerows_ranks|].
    by apply writerows_Forall.
  - intros W db fuel row w p
      (qid & text & rest & batch & w2 & st & _ & _ & _ & _ & ->)%recoll_done.
    rewrite writerows_length. split; [apply writerows_ranks|].
    by apply writerows_Forall.
Qed.

(** C6 on the recoll run over three files: ranks 0, 1, 2 and scores 100, 99,
    98. *)
Lemma ranks_contiguous_and_scores_complement_witness :
  match Recoll.process_query (Cursor.backend (Recoll.Raises StopIteration))
          MAX_RANK 5 ["1"; "foo bar"] (Cursor.fresh [D1; D2; D3]) with
  | Done p =>
      rank <$> rows p = [0; 1; 2]
      ∧ score <$> rows p = [100; 99; 98]%Z
      ∧ Forall (λ r, score r = (Z.of_nat MAX_RANK - Z.of_nat (rank r))%Z) (rows p)
  | _ => False
  end.
Proof.
  destruct (Recoll.process_query _ _ _ _ _) as [p| |] eqn:E;
    [|vm_compute in E; discriminate..].
  destruct (proj2 ranks_contiguous_and_scores_complement _ _ _ _ _ _ E)
    as [Hr Hs].
  assert (length (rows p) = 3) as Hlen.
  { vm_compute in E. by injection E as <-. }
  rewrite Hlen in Hr. split; [exact Hr|]. split; [|exact Hs].
  vm_compute in E. by injection E as <-.
Defined.

(** C7. Term-OR normalisation turns "What is (the) cost?" into the terms
    What, is, the, cost joined with OR, and both policies put a space for
    the path separator: "a/b/c" becomes "a b c", as the whole query of the
    literal policy and as the text the term-OR policy splits into a, b, c
    before it joins them.  In the literal policy that is all that happens
    to any text. *)
Theorem normalization_examples :
  Recoll.terms "What is (the) cost?" = ["What"; "is"; "the"; "cost"]
  ∧ Recoll.normalize "What is (the) cost?"
    = PyStr.join " OR " ["What"; "is"; "the"; "cost"]
  ∧ Recoll.normalize "What is (the) cost?" = "What OR is OR the OR cost"
  ∧ Docfetcher.normalize "a/b/c" = "a b c"
  ∧ Recoll.cleaned "a/b/c" = "a b c"
  ∧ Recoll.terms "a/b/c" = ["a"; "b"; "c"]
  ∧ Recoll.normalize "a/b/c" = "a OR b OR c"
  ∧ (∀ text, Docfetcher.normalize text = PyStr.translate "/" " " text).
Proof.
  repeat (split; [reflexivity|]).
  intros text. apply replace_char_translate.
Qed.

(** C8. A row with fewer than two columns makes [query_row[0]] or
    [query_row[1]] raise [IndexError], which nothing catches: what the run
    has written and printed is what the queries before that row gave, and
    the run ends with the exception unless an earlier query had already
    ended it.  This holds in both harnesses. *)
Theorem short_row_aborts_run (bad : list string) (pre post : list (list string)) :
  length bad < 2 →
  (∀ (W : Type) (s : Docfetcher.Searcher W) w,
     let r := Docfetcher.main s pre w in
     let r' := Docfetcher.main s (pre ++ bad :: post) w in
     written r' = written r ∧ printed r' = printed r
     ∧ ending r' = match ending r with Completed => Crashed IndexError | e => e end)
  ∧ (∀ (W : Type) (db : Recoll.Backend W) fuel w,
       let r := Recoll.main db fuel pre w in
       let r' := Recoll.main db fuel (pre ++ bad :: post) w in
       written r' = written r ∧ printed r' = printed r
       ∧ ending r' = match ending r with Completed => Crashed IndexError | e => e end).
Proof.
  intros Hbad. split.
  - intros W s w. apply query_loop_stops_at_raise.
    intros w'. by apply (proj1 (short_row_raises bad Hbad)).
  - intros W db fuel w. apply query_loop_stops_at_raise.
    intros w'. by apply (proj2 (short_row_raises bad Hbad)).
Qed.

(** C8 on a query file whose second line has no tab: the rows of query 1
    are written, then the run ends with [IndexError]; query 3 is never
    run. *)
Lemma short_row_aborts_run_witness :
  let r := Docfetcher.main (Fixed.searcher (λ _, [D1; D2]))
             [["1"; "foo"]; ["2 bar"]; ["3"; "baz"]] 0%Z in
  query_id <$> written r = ["1"; "1"]
  ∧ printed r = ["Processed query 1"]
  ∧ ending r = Crashed IndexError.
Proof.
  destruct (proj1 (short_row_aborts_run ["2 bar"] [["1"; "foo"]] [["3"; "baz"]]
                     ltac:(simpl; lia))
              Z (Fixed.searcher (λ _, [D1; D2])) 0%Z) as (Hw & Hp & He).
  cbv zeta.
  change [["1"; "foo"]; ["2 bar"]; ["3"; "baz"]]
    with ([["1"; "foo"]] ++ ["2 bar"] :: [["3"; "baz"]]).
  rewrite Hw, Hp, He. by vm_compute.
Defined.

(** C9. With a monotonic clock, [duration_s] is not negative and is the same
    in every row of a query: the clock reading taken when the backend is
    done with the query (after the search in the truncating harness, after
    the walk and [query.close()] in the deduplicating one) less the reading
    taken before the search. *)
Theorem duration_nonnegative_and_shared :
  (∀ (W : Type) (s : Docfetcher.Searcher W) row w p,
     Docfetcher.monotonic s →
     Docfetcher.process_query s MAX_RANK row w = Done p →
     let d := PyFloat.sub (Docfetcher.now s (world p)) (Docfetcher.now s w) in
     PyFloat.leb PyFloat.zero d = true
     ∧ Forall (λ r, duration_s r = d) (rows p))
  ∧ (∀ (W : Type) (db : Recoll.Backend W) fuel row w p,
       Recoll.monotonic db →
       Recoll.process_query db MAX_RANK fuel row w = Done p →
       let d := PyFloat.sub (Recoll.now db (world p)) (Recoll.now db w) in
       PyFloat.leb PyFloat.zero d = true
       ∧ Forall (λ r, duration_s r = d) (rows p)).
Proof.
  split.
  - intros W s row w p [Hread Hmono]
      (qid & text & rest & _ & Hw & ->)%docfetcher_done.
    split; [|by apply writerows_Forall].
    apply sub_nonneg; [done..|].
    specialize (Hmono (Docfetcher.normalize text) w). by rewrite Hw.
  - intros W db fuel row w p Hmono
      (qid & text & rest & batch & w2 & st & _ & F & Hw & Hp & ->)%recoll_done.
    split; [|by apply writerows_Forall].
    apply finished_reachable in Hw as [R _].
    pose proof (reachable_clock db batch w2 st Hmono R) as Hwalk.
    destruct Hmono as (Hread & Hexec & Hmany & _ & Hclose).
    specialize (Hexec (Recoll.normalize text) w).
    specialize (Hmany MAX_RANK (Recoll.execute db (Recoll.normalize text) w)).
    rewrite F in Hmany. simpl in Hmany.
    specialize (Hclose (Recoll.session st)). rewrite <-Hp in Hclose.
    apply sub_nonneg; [done..|].
    eapply leb_trans; [..|exact Hexec|]; [done..|].
    eapply leb_trans; [..|exact Hmany|]; [done..|].
    eapply leb_trans; [..|exact Hwalk|exact Hclose]; done.
Qed.

(** C9 on the recoll answer of 101 results: every one of the hundred rows
    carries the 4.0 that lie between the reading before [execute] and the
    reading after [fetchmany], one [fetchone] and [close]. *)
Lemma duration_nonnegative_and_shared_witness :
  match Recoll.process_query (Cursor.backend (Recoll.Raises StopIteration))
          MAX_RANK 200 ["1"; "foo bar"] (Cursor.fresh long_answer) with
  | Done p =>
      length (rows p) = 100
      ∧ Forall (λ r, duration_s r
                     = PyFloat.sub (PyFloat.of_ticks 4) (PyFloat.of_ticks 0)
                     ∧ PyFloat.leb PyFloat.zero (duration_s r) = true)
               (rows p)
  | _ => False
  end.
Proof.
  pose proof long_answer_done as Hdone.
  destruct (Recoll.process_query _ _ _ _ _) as [p| |] eqn:E; [|done..].
  destruct (proj2 duration_nonnegative_and_shared _ _ _ _ _ _
              (cursor_monotonic _) E) as [Hpos Hall].
  apply recoll_done in E
    as (qid & text & rest & batch & w2 & st & [= <- <- <-] & F & Hw & Hp & Hrows).
  destruct (long_answer_walk _ _ _ F Hw) as [Hkept Hclock].
  split; [by rewrite Hrows, writerows_length, Hkept|].
  assert (Cursor.clock (world p) = 4%Z) as Hend.
  { rewrite Hp. simpl. by rewrite Hclock. }
  eapply Forall_impl; [exact Hall|]. cbv beta. intros r ->.
  cbn [Recoll.now Cursor.backend] in *. rewrite Hend in *. by split.
Defined.

(** C10. In the deduplicating harness the accepted documents never outnumber
    the initial batch: at every state of the walk there are at most as many
    as the batch holds, since each backfill fetch answers one discarded
    duplicate.  A walk that ends normally has accepted as many documents as
    the batch holds, less the duplicates left unreplaced, of which there is
    then none; and the rows written for the query are as many. *)
Theorem accepted_bounded_by_initial_batch
    {W : Type} (db : Recoll.Backend W) (batch : list Doc) (w : W) :
  (∀ st, Recoll.reachable db batch w st →
         length (Recoll.results_dedup st) ≤ length batch)
  ∧ (∀ fuel st,
       Recoll.walk db fuel (Recoll.walk_init batch w) = Recoll.Finished st →
       Recoll.unreplaced st = 0
       ∧ length (Recoll.results_dedup st)
         = length batch - Recoll.unreplaced st)
  ∧ (∀ fuel qid text rest w0 p,
       Recoll.fetchmany db MAX_RANK
         (Recoll.execute db (Recoll.normalize text) w0) = (batch, w) →
       Recoll.process_query db MAX_RANK fuel (qid :: text :: rest) w0 = Done p →
       length (rows p) = length batch).
Proof.
  assert (∀ fuel st,
    Recoll.walk db fuel (Recoll.walk_init batch w) = Recoll.Finished st →
    length (Recoll.results_dedup st) = length batch) as Hfin.
  { intros fuel st [R Hpos]%finished_reachable.
    destruct (reachable_count db batch w st R). lia. }
  split; [|split].
  - apply reachable_accepted_le.
  - intros fuel st Hw. rewrite (finished_unreplaced db _ _ _ _ Hw).
    split; [done|]. rewrite (Hfin _ _ Hw). lia.
  - intros fuel qid text rest w0 p F Hp.
    apply recoll_done in Hp
      as (qid' & text' & rest' & batch' & w2 & st & [= <- <- <-] & F' & Hw & _ & ->).
    rewrite F in F'. injection F' as <- <-.
    rewrite writerows_length. eauto.
Qed.

(** C10, on the batch [D1, D2, D1] with [D3] behind it: three documents are
    accepted, as many as the batch holds. *)
Lemma accepted_bounded_by_initial_batch_witness :
  ∃ st,
    Recoll.walk (Cursor.backend (Recoll.Raises StopIteration)) 5
      (Recoll.walk_init [D1; D2; D1] (Cursor.midway [D3])) = Recoll.Finished st
    ∧ Recoll.results_dedup st = [D1; D2; D3]
    ∧ length (Recoll.results_dedup st) = 3 - Recoll.unreplaced st.
Proof.
  eexists. split; [vm_compute; reflexivity|]. split; [reflexivity|].
  refine (proj2 (proj1 (proj2 (accepted_bounded_by_initial_batch
    (Cursor.backend (Recoll.Raises StopIteration)) [D1; D2; D1]
    (Cursor.midway [D3]))) 5 _ _)).
  vm_compute. reflexivity.
Defined.

(** * Further properties of the code *)

(** ** Characters of the normalised query *)

Section Chars.

Lemma has_char_app c a b : has_char c (a +:+ b) ↔ has_char c a ∨ has_char c b.
Proof.
  unfold has_char. induction a as [|x a IH]; simpl.
  - rewrite elem_of_nil. tauto.
  - rewrite !elem_of_cons, IH. tauto.
Qed.

Lemma has_char_empty c : ¬ has_char c "".
Proof. unfold has_char. simpl. apply not_elem_of_nil. Qed.

Lemma has_char_cons c x s : has_char c (String x s) ↔ c = x ∨ has_char c s.
Proof. unfold has_char. simpl. apply elem_of_cons. Qed.

(** [replace] brings in no character beyond those of [new]. *)
Lemma replace_from_chars old new skip s c :
  has_char c (PyStr.replace_from old new skip s) →
  has_char c s ∨ has_char c new.
Proof.
  revert skip. induction s as [|x s IH]; intros skip;
    cbn [PyStr.replace_from]; [tauto|].
  destruct skip as [|k].
  - destruct (String.prefix old (String x s)).
    + rewrite has_char_app, has_char_cons. intros [H|H%IH]; tauto.
    + rewrite !has_char_cons. intros [H|H%IH]; tauto.
  - rewrite has_char_cons. intros H%IH. tauto.
Qed.

Lemma replace_chars old new s c :
  has_char c (PyStr.replace old new s) → has_char c s ∨ has_char c new.
Proof.
  unfold PyStr.replace. destruct old as [|o old]; [|apply replace_from_chars].
  induction s as [|x s IH]; cbn [PyStr.intersperse_all]; [tauto|].
  rewrite has_char_app, !has_char_cons. intros [H|[H|H%IH]]; tauto.
Qed.

(** Replacing a character takes every occurrence of it out. *)
Lemma replace_char_gone c new s :
  ¬ has_char c new →
  ¬ has_char c (PyStr.replace (String c EmptyString) new s).
Proof.
  intros Hnew. unfold PyStr.replace.
  induction s as [|x s IH]; cbn [PyStr.replace_from String.prefix];
    [apply has_char_empty|].
  destruct (ascii_dec c x) as [->|Hne].
  - assert (String.prefix "" s = true) as -> by (by destruct s).
    rewrite has_char_app. tauto.
  - rewrite has_char_cons. intros [->|H]; [done|by apply IH].
Qed.
End Chars.

Section Terms.

Lemma has_char_space c : has_char c " " ↔ c = " "%char.
Proof. rewrite has_char_cons. pose proof (has_char_empty c). tauto. Qed.

Lemma has_char_rev_app c a b :
  has_char c (String.rev_app a b) ↔ has_char c a ∨ has_char c b.
Proof.
  revert b. induction a as [|x a IH]; intros b; cbn [String.rev_app].
  - pose proof (has_char_empty c). tauto.
  - rewrite IH, !has_char_cons. tauto.
Qed.

Lemma has_char_rev c s : has_char c (String.rev s) ↔ has_char c s.
Proof.
  unfold String.rev. rewrite has_char_rev_app.
  pose proof (has_char_empty c). tauto.
Qed.

Lemma rev_nonempty x s : String.rev (String x s) ≠ "".
Proof.
  intros H. apply (has_char_empty x). rewrite <-H, has_char_rev, has_char_cons.
  by left.
Qed.

(** The replace chain brings in nothing but spaces and leaves none of the
    stripped characters. *)
Lemma cleaned_chars c text :
  has_char c (Recoll.cleaned text) →
  (has_char c text ∨ c = " "%char) ∧ (c ∉ stripped).
Proof.
  unfold Recoll.cleaned. intros H. split.
  - repeat (apply replace_chars in H as [H|H];
             [|first [by apply has_char_empty in H
                     |apply has_char_space in H; by right]]).
    by left.
  - intros Hin. unfold stripped in Hin.
    repeat (apply elem_of_cons in Hin as [->|Hin]);
      [..|by apply elem_of_nil in Hin];
      repeat first
        [ by (revert H; apply replace_char_gone;
              first [apply has_char_empty|by rewrite has_char_space])
        | apply replace_chars in H as [H|H];
            [|first [by apply has_char_empty in H
                    |by apply has_char_space in H]] ].
Qed.

(** [split()] gives non-empty words without whitespace, made of characters
    of the text. *)
Lemma split_from_words word s t :
  (∀ c, has_char c word → PyStr.isspace c = false) →
  t ∈ PyStr.split_from word s →
  t ≠ ""
  ∧ ∀ c, has_char c t →
         PyStr.isspace c = false ∧ (has_char c word ∨ has_char c s).
Proof.
  revert word. induction s as [|x s IH]; intros word Hword;
    cbn [PyStr.split_from].
  - destruct word as [|w word]; [by intros ?%elem_of_nil|].
    intros ->%list_elem_of_singleton. split; [apply rev_nonempty|].
    intros c Hc. apply (proj1 (has_char_rev _ _)) in Hc.
    split; [by apply Hword|by left].
  - destruct (PyStr.isspace x) eqn:Hx.
    + assert (t ∈ PyStr.split_from "" s →
              t ≠ "" ∧ ∀ c, has_char c t →
                PyStr.isspace c = false
                ∧ (has_char c word ∨ has_char c (String x s))) as Hrest.
      { intros Ht. destruct (IH "" (λ c H, False_ind _ (has_char_empty c H)) Ht)
          as [Hne Hc].
        split; [done|]. intros c [Hs [H|H]]%Hc; [by apply has_char_empty in H|].
        split; [done|]. right. rewrite has_char_cons. by right. }
      destruct word as [|w word]; [done|].
      intros [->|Ht]%elem_of_cons; [|by apply Hrest].
      split; [apply rev_nonempty|].
      intros c Hc. apply (proj1 (has_char_rev _ _)) in Hc.
      split; [by apply Hword|by left].
    + intros Ht. destruct (IH (String x word)) with (2 := Ht) as [Hne Hc].
      { intros c [->|H]%has_char_cons; [done|by apply Hword]. }
      split; [done|]. intros c [Hs H]%Hc. split; [done|].
      rewrite has_char_cons in *. tauto.
Qed.

Lemma split_from_blank s :
  (∀ c, has_char c s → PyStr.isspace c = true) → PyStr.split_from "" s = [].
Proof.
  induction s as [|x s IH]; intros H; cbn [PyStr.split_from]; [done|].
  rewrite (H x) by (rewrite has_char_cons; by left).
  apply IH. intros c Hc. apply H. rewrite has_char_cons. by right.
Qed.
End Terms.

(** X1. Every term the term-OR policy sends is a non-empty word of
    characters of the query text, with no whitespace in it and none of the
    characters . , : ? ( ) / *)
Theorem terms_are_clean (text term : string) :
  term ∈ Recoll.terms text →
  term ≠ ""
  ∧ ∀ c, has_char c term →
         PyStr.isspace c = false ∧ (c ∉ stripped) ∧ has_char c text.
Proof.
  unfold Recoll.terms, PyStr.split. intros Ht.
  destruct (split_from_words "" _ _ (λ c H, False_ind _ (has_char_empty c H)) Ht)
    as [Hne Hc].
  split; [done|]. intros c [Hs [H|H]]%Hc; [by apply has_char_empty in H|].
  apply cleaned_chars in H as [[H| ->] Hstrip]; [done|done].
Qed.

(** X1 on "a/b - (c)?": the term "c" has lost its brackets. *)
Lemma terms_are_clean_witness :
  Recoll.terms "a/b - (c)?" = ["a"; "b"; "c"]
  ∧ ∀ c, has_char c "c" →
         PyStr.isspace c = false ∧ (c ∉ stripped) ∧ has_char c "a/b - (c)?".
Proof.
  split; [reflexivity|].
  refine (proj2 (terms_are_clean "a/b - (c)?" "c" _)).
  vm_compute. set_solver.
Defined.

(** X2. A query text made of nothing but whitespace and the characters
    . , : ? ( ) / has no terms: the query executed is the empty string. *)
Theorem punctuation_only_gives_empty_query (text : string) :
  (∀ c, has_char c text → PyStr.isspace c = true ∨ c ∈ stripped) →
  Recoll.terms text = [] ∧ Recoll.normalize text = "".
Proof.
  intros H.
  assert (Recoll.terms text = []) as Ht.
  { unfold Recoll.terms, PyStr.split. apply split_from_blank.
    intros c [[Hc| ->] Hs]%cleaned_chars; [|done].
    destruct (H c Hc) as [Hsp|Hst]; [done|]. by destruct Hs. }
  split; [done|]. unfold Recoll.normalize. by rewrite Ht.
Qed.

(** X2 on " (?) ./ ". *)
Lemma punctuation_only_gives_empty_query_witness :
  Recoll.normalize " (?) ./ " = "".
Proof.
  refine (proj2 (punctuation_only_gives_empty_query " (?) ./ " _)).
  intros c Hc. unfold has_char in Hc. simpl in Hc.
  repeat (apply elem_of_cons in Hc as [->|Hc]);
    [..|by apply elem_of_nil in Hc];
    first [by left|right; unfold stripped; set_solver].
Defined.

(** ** The document identifier *)

Lemma substring_prefix (a b : string) :
  String.substring 0 (String.length a) (a +:+ b) = a.
Proof.
  induction a as [|x a IH]; simpl; [by destruct b|]. by rewrite IH.
Qed.

Lemma substring_length_le (n : nat) (s : string) :
  n ≤ String.length s → String.length (String.substring 0 n s) = n.
Proof.
  revert n. induction s as [|x s IH]; intros [|n] H; simpl in *; try done; try lia.
  rewrite IH; lia.
Qed.

Lemma string_length_app (a b : string) :
  String.length (a +:+ b) = String.length a + String.length b.
Proof. induction a as [|x a IH]; simpl; [done|]. by rewrite IH. Qed.

(** X3. The [doc_id] written for a file is its name without the last four
    characters, whatever they are: a name [stem ++ ext] with an [ext] of
    four characters gives back [stem], the [doc_id] is four characters
    shorter than the filename, and a filename of fewer than four characters
    gives the empty [doc_id]. *)
Theorem doc_id_is_filename_less_four (K : nat) (qid : string) (dur : spec_float)
    (docs : list Doc) (i : nat) (doc : Doc) :
  docs !! i = Some doc →
  ∃ r, writerows K qid dur docs !! i = Some r
       ∧ String.length (doc_id r) = String.length (filename doc) - 4
       ∧ (∀ stem ext, filename doc = stem +:+ ext → String.length ext = 4 →
                      doc_id r = stem)
       ∧ (String.length (filename doc) < 4 → doc_id r = "").
Proof.
  intros Hd. eexists. split; [by apply writerows_lookup|]. simpl.
  unfold PyStr.drop_last4. split; [|split].
  - apply substring_length_le. lia.
  - intros stem ext -> Hext. rewrite string_length_app, Hext.
    replace (String.length stem + 4 - 4) with (String.length stem) by lia.
    apply substring_prefix.
  - intros Hlt. replace (String.length (filename doc) - 4) with 0 by lia.
    by destruct (filename doc).
Qed.

(** X3 on a file called "report.final.docx": the [doc_id] is "report.final.",
    the extension being five characters long. *)
Lemma doc_id_is_filename_less_four_witness :
  ∃ r, writerows MAX_RANK "7" PyFloat.zero
         [{| filename := "report.final.docx" |}] !! 0 = Some r
       ∧ doc_id r = "report.final."
       ∧ String.length (doc_id r) = 13.
Proof.
  destruct (doc_id_is_filename_less_four MAX_RANK "7" PyFloat.zero
              [{| filename := "report.final.docx" |}] 0
              {| filename := "report.final.docx" |} eq_refl)
    as (r & Hr & Hlen & Hstem & _).
  exists r. split; [exact Hr|]. split; [|exact Hlen].
  by apply (Hstem "report.final." "docx").
Defined.

(** ** What the walk keeps, and what it fetches *)

Section FirstOccurrences.

Lemma docs_of_app a b : docs_of (a ++ b) = docs_of a ++ docs_of b.
Proof. unfold docs_of. apply omap_app. Qed.

Lemma docs_of_docs l : docs_of (Recoll.PyDoc <$> l) = l.
Proof.
  induction l as [|d l IH]; [done|]. simpl. f_equal. exact IH.
Qed.

Lemma docs_of_all_docs (l : list Recoll.pyobj) :
  (∀ j u, l !! j = Some u → ∃ d, u = Recoll.PyDoc d) →
  Recoll.PyDoc <$> docs_of l = l.
Proof.
  induction l as [|u l IH]; intros H; [done|].
  destruct (H 0 u eq_refl) as [d ->]. simpl. f_equal.
  apply IH. intros j u' Hj. by apply (H (S j)).
Qed.

Lemma first_by_filename_names seen l x :
  x ∈ filename <$> first_by_filename seen l ↔ x ∈ filename <$> l ∧ x ∉ seen.
Proof.
  revert seen. induction l as [|d l IH]; intros seen; simpl.
  - rewrite elem_of_nil. tauto.
  - case_decide as Hd; simpl; rewrite ?elem_of_cons, IH;
      rewrite ?elem_of_union, ?elem_of_singleton;
      destruct (decide (x = filename d)) as [->|]; tauto.
Qed.

Lemma first_by_filename_again seen l d :
  filename d ∈ seen ∨ filename d ∈ filename <$> l →
  first_by_filename seen (l ++ [d]) = first_by_filename seen l.
Proof.
  revert seen. induction l as [|a l IH]; intros seen H; simpl.
  - rewrite decide_True; [done|]. destruct H as [H|H]; [done|].
    by apply elem_of_nil in H.
  - case_decide as Ha.
    + apply IH. destruct H as [H|H]; [by left|].
      simpl in H. apply elem_of_cons in H as [->|H]; [by left|by right].
    + f_equal. apply IH. rewrite elem_of_union, elem_of_singleton.
      destruct H as [H|H]; [tauto|].
      simpl in H. apply elem_of_cons in H as [->|H]; tauto.
Qed.

Lemma first_by_filename_new seen l d :
  filename d ∉ seen → filename d ∉ filename <$> l →
  first_by_filename seen (l ++ [d]) = first_by_filename seen l ++ [d].
Proof.
  revert seen. induction l as [|a l IH]; intros seen Hs Hl; simpl.
  - by rewrite decide_False.
  - simpl in Hl. apply not_elem_of_cons in Hl as [Hne Hl].
    case_decide as Ha; [by apply IH|].
    simpl. f_equal. apply IH; [|done].
    rewrite elem_of_union, elem_of_singleton. tauto.
Qed.

Context {W : Type} (db : Recoll.Backend W) (batch : list Doc) (w : W).

(** What has been kept so far is what the places passed hold, each
    filename where it first came. *)
Lemma reachable_first_occurrences st :
  Recoll.reachable db batch w st →
  Recoll.results_dedup st
  = first_by_filename ∅ (docs_of (take (Recoll.pos st) (Recoll.results st))).
Proof.
  intros R. pose proof R as R0. revert st R R0.
  apply (reachable_turn_ind db batch w
           (λ st, Recoll.reachable db batch w st →
                  Recoll.results_dedup st
                  = first_by_filename ∅
                      (docs_of (take (Recoll.pos st) (Recoll.results st)))));
    simpl; [done|].
  intros st st' R Hturn IH _. specialize (IH R).
  destruct (reachable_ids db batch w st R) as [Hids _].
  assert (∀ doc, Recoll.results st !! Recoll.pos st = Some (Recoll.PyDoc doc) →
            (filename doc ∈ Recoll.results_ids st
             ↔ filename doc
               ∈ filename <$> docs_of (take (Recoll.pos st) (Recoll.results st))))
    as Hseen.
  { intros doc _. rewrite Hids, IH, first_by_filename_names.
    pose proof (not_elem_of_empty (C:=gset string) (filename doc)). tauto. }
  destruct Hturn as [doc v w' Hl Hin _ ->|doc Hl Hnew ->]; simpl.
  - rewrite take_app_le by (apply lookup_lt_Some in Hl; lia).
    rewrite (take_S_r _ _ _ Hl), docs_of_app. simpl.
    rewrite first_by_filename_again; [done|]. right. by apply Hseen.
  - rewrite (take_S_r _ _ _ Hl), docs_of_app. simpl.
    rewrite first_by_filename_new; [by rewrite IH|apply not_elem_of_empty|].
    intros H. apply Hnew. by apply Hseen.
Qed.
End FirstOccurrences.

(** X4. When the deduplicating walk ends normally, the list it has walked
    is the initial batch followed by what the backfill fetches returned, in
    the order of the calls: the place [i] after the batch holds the answer
    of the [i]-th [fetchone()], a document, and the session has made as many
    fetches as there are such places.  The documents kept are those of that
    list with every filename kept where it first comes: the backend's order
    is preserved. *)
Theorem accepted_are_first_occurrences
    {W : Type} (db : Recoll.Backend W) (batch : list Doc) (w : W)
    (fuel : nat) (st : Recoll.walk_state W) :
  Recoll.walk db fuel (Recoll.walk_init batch w) = Recoll.Finished st →
  Recoll.results_dedup st = first_by_filename ∅ (docs_of (Recoll.results st))
  ∧ Recoll.results st = Recoll.PyDoc <$> docs_of (Recoll.results st)
  ∧ take (length batch) (docs_of (Recoll.results st)) = batch
  ∧ (∀ i v, Recoll.results st !! (length batch + i) = Some v →
            Recoll.nth_fetch db i w = Recoll.Returns v)
  ∧ Recoll.session st
    = Recoll.after_fetches db (length (Recoll.results st) - length batch) w.
Proof.
  intros [R Hpos]%finished_reachable.
  pose proof (reachable_first_occurrences db batch w st R) as Hkept.
  rewrite Hpos, firstn_all in Hkept. split; [done|].
  destruct (reachable_fetches db batch w st R) as (vs & Hr & Hs & Hv).
  split; [|split; [|split]].
  - symmetry. apply docs_of_all_docs. intros j u Hj.
    destruct (reachable_walked db batch w st j R) as [d Hd].
    { rewrite Hpos. by apply lookup_lt_Some in Hj. }
    exists d. congruence.
  - rewrite Hr, docs_of_app, docs_of_docs.
    by rewrite take_app_length.
  - intros i v Hi. apply Hv.
    rewrite Hr, lookup_app_r in Hi by (rewrite length_fmap; lia).
    rewrite length_fmap in Hi.
    by replace (length batch + i - length batch) with i in Hi by lia.
  - rewrite Hs. f_equal. rewrite Hr, length_app, length_fmap. lia.
Qed.

(** X4 on the batch [D1, D2, D1] with [D3] behind it: the one place after
    the batch holds [D3], the answer of the first [fetchone()]. *)
Lemma accepted_are_first_occurrences_witness :
  ∃ st,
    Recoll.walk (Cursor.backend (Recoll.Raises StopIteration)) 5
      (Recoll.walk_init [D1; D2; D1] (Cursor.midway [D3])) = Recoll.Finished st
    ∧ docs_of (Recoll.results st) = [D1; D2; D1; D3]
    ∧ Recoll.results_dedup st = [D1; D2; D3]
    ∧ (Recoll.results_dedup st = first_by_filename ∅ (docs_of (Recoll.results st))
       ∧ Recoll.results st = Recoll.PyDoc <$> docs_of (Recoll.results st)
       ∧ take 3 (docs_of (Recoll.results st)) = [D1; D2; D1]
       ∧ (∀ i v, Recoll.results st !! (3 + i) = Some v →
                 Recoll.nth_fetch (Cursor.backend (Recoll.Raises StopIteration))
                   i (Cursor.midway [D3]) = Recoll.Returns v)
       ∧ Recoll.session st
         = Recoll.after_fetches (Cursor.backend (Recoll.Raises StopIteration))
             (length (Recoll.results st) - 3) (Cursor.midway [D3])).
Proof.
  eexists. split; [vm_compute; reflexivity|]. split; [reflexivity|].
  split; [reflexivity|].
  apply (accepted_are_first_occurrences
           (Cursor.backend (Recoll.Raises StopIteration))
           [D1; D2; D1] (Cursor.midway [D3]) 5).
  vm_compute. reflexivity.
Defined.

Section DistinctBatch.
Context {W : Type} (db : Recoll.Backend W).

(** Over documents with distinct filenames the walk accepts one document a
    turn and does not touch the session. *)
Lemma walk_distinct (rest pre : list Doc) (st : Recoll.walk_state W) :
  Recoll.results st = Recoll.PyDoc <$> (pre ++ rest) →
  Recoll.pos st = length pre →
  (∀ x, x ∈ Recoll.results_ids st ↔ x ∈ filename <$> pre) →
  Recoll.results_dedup st = pre →
  NoDup (filename <$> (pre ++ rest)) →
  ∃ st', Recoll.walk db (S (length rest)) st = Recoll.Finished st'
         ∧ Recoll.results_dedup st' = pre ++ rest
         ∧ Recoll.session st' = Recoll.session st.
Proof.
  revert pre st.
  induction rest as [|d rest IH]; intros pre st Hres Hpos Hids Hkept Hnd.
  - exists st. rewrite app_nil_r in *. split; [|by split].
    cbn [Recoll.walk]. unfold Recoll.walk_step.
    rewrite Hres, Hpos, list_lookup_fmap, lookup_ge_None_2; done.
  - assert (Recoll.results st !! Recoll.pos st = Some (Recoll.PyDoc d)) as Hl.
    { rewrite Hres, Hpos, list_lookup_fmap, lookup_app_r, Nat.sub_diag by done.
      done. }
    assert (filename d ∉ Recoll.results_ids st) as Hnew.
    { rewrite Hids. rewrite fmap_app in Hnd.
      apply NoDup_app in Hnd as (_ & Hdisj & _).
      intros Hin. apply (Hdisj _ Hin). simpl. by left. }
    change (Recoll.walk db (S (length (d :: rest))) st)
      with (match Recoll.walk_step db st with
            | Recoll.Next st' => Recoll.walk db (S (length rest)) st'
            | Recoll.Exhausted => Recoll.Finished st
            | Recoll.Throws e => Recoll.Aborted e st
            end).
    unfold Recoll.walk_step. rewrite Hl, decide_False by done.
    edestruct (IH (pre ++ [d])) as (st' & Hw & Hk & Hs); last first.
    { exists st'. split; [exact Hw|]. rewrite Hk, <-app_assoc. by split. }
    + by rewrite <-app_assoc.
    + simpl. by rewrite Hkept.
    + simpl. intros x. rewrite elem_of_union, elem_of_singleton, Hids, fmap_app,
        elem_of_app. simpl. rewrite list_elem_of_singleton. tauto.
    + simpl. rewrite Hpos, length_app. simpl. lia.
    + simpl. by rewrite Hres, <-app_assoc.
Qed.
End DistinctBatch.

(** X5. When the documents of the initial batch have pairwise distinct
    filenames, the query completes after one turn for each, [fetchone()] is
    never called (the session goes from [fetchmany] straight to [close]),
    and every document of the batch gets a row, in the backend's order. *)
Theorem distinct_batch_needs_no_backfill
    {W : Type} (db : Recoll.Backend W) (K : nat) (qid text : string)
    (rest : list string) (w : W) (batch : list Doc) (w2 : W) (extra : nat) :
  Recoll.fetchmany db K (Recoll.execute db (Recoll.normalize text) w)
  = (batch, w2) →
  NoDup (filename <$> batch) →
  Recoll.process_query db K (length batch + 1 + extra) (qid :: text :: rest) w
  = Done {| rows := writerows K qid
                      (PyFloat.sub (Recoll.now db (Recoll.close db w2))
                         (Recoll.now db w)) batch;
            notice := "Processed query " +:+ qid;
            world := Recoll.close db w2 |}.
Proof.
  intros F Hnd.
  destruct (walk_distinct db batch [] (Recoll.walk_init batch w2))
    as (st & Hw & Hk & Hs); simpl; try done.
  { intros x. rewrite elem_of_nil. set_solver. }
  rewrite <-Nat.add_1_r in Hw.
  unfold Recoll.process_query. simpl. rewrite F.
  rewrite walk_ended_more_fuel by (by rewrite Hw).
  rewrite Hw. simpl in Hk, Hs. by rewrite Hk, Hs.
Qed.

(** X5 on three distinct files. *)
Lemma distinct_batch_needs_no_backfill_witness :
  ∃ p,
    Recoll.process_query (Cursor.backend (Recoll.Raises StopIteration))
      MAX_RANK (3 + 1 + 0) ["1"; "foo bar"] (Cursor.fresh [D1; D2; D3]) = Done p
    ∧ doc_id <$> rows p = ["D1"; "D2"; "D3"]
    ∧ Cursor.clock (world p) = 3%Z.
Proof.
  eexists. split.
  - apply (distinct_batch_needs_no_backfill
             (Cursor.backend (Recoll.Raises StopIteration)) MAX_RANK "1" "foo bar"
             [] (Cursor.fresh [D1; D2; D3]) [D1; D2; D3] _ 0 eq_refl).
    apply (bool_decide_unpack _). vm_compute. exact I.
  - split; reflexivity.
Defined.

(** X6. At every state of the walk the session has answered exactly one
    [fetchone()] for every duplicate discarded so far: the places passed
    are the documents kept plus the fetches made, and the list is the batch
    plus the fetches made. *)
Theorem one_fetch_per_duplicate
    {W : Type} (db : Recoll.Backend W) (batch : list Doc) (w : W)
    (st : Recoll.walk_state W) :
  Recoll.reachable db batch w st →
  ∃ fetches,
    Recoll.pos st = length (Recoll.results_dedup st) + fetches
    ∧ length (Recoll.results st) = length batch + fetches
    ∧ Recoll.session st = Recoll.after_fetches db fetches w.
Proof.
  intros R.
  destruct (reachable_fetches db batch w st R) as (vs & Hr & Hs & _).
  destruct (reachable_count db batch w st R) as [Hc _].
  exists (length vs). rewrite Hr, length_app, length_fmap in *.
  split; [lia|]. by split.
Qed.

(** X6 on the state in which the walk over [D1, D1, D2], with [D3] behind,
    ends: three places for documents kept, one fetch. *)
Lemma one_fetch_per_duplicate_witness :
  ∃ st fetches,
    Recoll.walk (Cursor.backend (Recoll.Raises StopIteration)) 5
      (Recoll.walk_init [D1; D1; D2] (Cursor.midway [D3; D4])) = Recoll.Finished st
    ∧ Recoll.pos st = length (Recoll.results_dedup st) + fetches
    ∧ length (Recoll.results st) = 3 + fetches
    ∧ Cursor.pending (Recoll.session st) = [D4].
Proof.
  eexists.
  assert (Recoll.walk (Cursor.backend (Recoll.Raises StopIteration)) 5
            (Recoll.walk_init [D1; D1; D2] (Cursor.midway [D3; D4]))
          = Recoll.Finished ?[st]) as Hw by (vm_compute; reflexivity).
  destruct (one_fetch_per_duplicate _ _ _ _ (proj1 (walk_Finished _ _ _ _ Hw)))
    as (fetches & Hp & Hl & _).
  exists fetches. split; [exact Hw|]. split; [exact Hp|]. split; [exact Hl|].
  reflexivity.
Defined.

(** X7. A walk that ends normally was never told that nothing is left: if
    the [n]-th backfill fetch of the session says so, by raising or by
    returning [None], the walk has made at most [n] fetches, the [n]-th not
    among them.  Reaching that fetch, a query does not complete. *)
Theorem finished_walk_met_no_end_of_results
    {W : Type} (db : Recoll.Backend W) (batch : list Doc) (w : W)
    (fuel n : nat) (st : Recoll.walk_state W) :
  Recoll.end_of_results (Recoll.nth_fetch db n w) →
  Recoll.walk db fuel (Recoll.walk_init batch w) = Recoll.Finished st →
  length (Recoll.results st) ≤ length batch + n
  ∧ ∃ fetches, fetches ≤ n
               ∧ Recoll.session st = Recoll.after_fetches db fetches w.
Proof.
  intros Heor [R Hpos]%finished_reachable.
  pose proof (reachable_pos_bound db batch w n st Heor R) as Hb.
  destruct (one_fetch_per_duplicate db batch w st R) as (k & _ & Hl & Hs).
  split; [lia|]. exists k. split; [lia|done].
Qed.

(** X7 on the batch [D1, D1, D2] with one document behind it: the second
    fetch would find nothing, and the walk ends after the first. *)
Lemma finished_walk_met_no_end_of_results_witness :
  ∃ st,
    Recoll.walk (Cursor.backend (Recoll.Raises StopIteration)) 5
      (Recoll.walk_init [D1; D1; D2] (Cursor.midway [D3])) = Recoll.Finished st
    ∧ length (Recoll.results st) ≤ 3 + 1.
Proof.
  eexists.
  assert (Recoll.walk (Cursor.backend (Recoll.Raises StopIteration)) 5
            (Recoll.walk_init [D1; D1; D2] (Cursor.midway [D3]))
          = Recoll.Finished ?[st]) as Hw by (vm_compute; reflexivity).
  split; [exact Hw|].
  refine (proj1 (finished_walk_met_no_end_of_results _ _ _ 5 1 _ _ Hw)).
  simpl. exact I.
Defined.

(** ** Scores and progress lines *)

(** X8. Every row written has a score between 1 and [MAX_RANK] and a rank
    below [MAX_RANK]; rank and score add up to [MAX_RANK].  For the
    deduplicating harness this rests on [fetchmany(MAX_RANK)] handing over
    at most [MAX_RANK] documents. *)
Theorem scores_between_one_and_MAX_RANK :
  (∀ (W : Type) (s : Docfetcher.Searcher W) row w p,
     Docfetcher.process_query s MAX_RANK row w = Done p →
     Forall (λ r, (1 ≤ score r ≤ Z.of_nat MAX_RANK)%Z
                  ∧ rank r < MAX_RANK
                  ∧ (Z.of_nat (rank r) + score r = Z.of_nat MAX_RANK)%Z)
            (rows p))
  ∧ (∀ (W : Type) (db : Recoll.Backend W) fuel row w p,
       Recoll.fetchmany_bounded db →
       Recoll.process_query db MAX_RANK fuel row w = Done p →
       Forall (λ r, (1 ≤ score r ≤ Z.of_nat MAX_RANK)%Z
                    ∧ rank r < MAX_RANK
                    ∧ (Z.of_nat (rank r) + score r = Z.of_nat MAX_RANK)%Z)
              (rows p)).
Proof.
  assert (∀ qid dur docs, length docs ≤ MAX_RANK →
    Forall (λ r, (1 ≤ score r ≤ Z.of_nat MAX_RANK)%Z
                 ∧ rank r < MAX_RANK
                 ∧ (Z.of_nat (rank r) + score r = Z.of_nat MAX_RANK)%Z)
           (writerows MAX_RANK qid dur docs)) as Hrows.
  { intros qid dur docs Hlen. apply writerows_Forall. intros i doc Hi.
    apply lookup_lt_Some in Hi. simpl. lia. }
  split.
  - intros W s row w p (qid & text & rest & _ & _ & ->)%docfetcher_done.
    apply Hrows. rewrite length_take. lia.
  - intros W db fuel row w p Hb
      (qid & text & rest & batch & w2 & st & _ & F & Hw & _ & ->)%recoll_done.
    apply Hrows.
    apply finished_reachable in Hw as [R _].
    apply reachable_accepted_le in R.
    specialize (Hb MAX_RANK (Recoll.execute db (Recoll.normalize text) w)).
    rewrite F in Hb. simpl in Hb. lia.
Qed.

(** X8 on DocFetcher's 103 results: the hundredth row has rank 99 and score
    1. *)
Lemma scores_between_one_and_MAX_RANK_witness :
  match Docfetcher.process_query (Fixed.searcher (λ _, many_copies)) MAX_RANK
          ["1"; "foo bar"] 0%Z with
  | Done p =>
      (score <$> rows p) !! 99 = Some 1%Z
      ∧ Forall (λ r, (1 ≤ score r ≤ Z.of_nat MAX_RANK)%Z
                     ∧ rank r < MAX_RANK
                     ∧ (Z.of_nat (rank r) + score r = Z.of_nat MAX_RANK)%Z)
               (rows p)
  | _ => False
  end.
Proof.
  destruct (Docfetcher.process_query _ _ _ _) as [p| |] eqn:E;
    [|vm_compute in E; discriminate..].
  split; [|exact (proj1 scores_between_one_and_MAX_RANK _ _ _ _ _ E)].
  vm_compute in E. by injection E as <-.
Defined.

Section Progress.
Context {W : Type} (body : list string → W → outcome (processed W)).
Hypothesis body_done :
  ∀ row w p, body row w = Done p →
    notice p = "Processed query " +:+ default "" (head row)
    ∧ Forall (λ r, query_id r = default "" (head row)) (rows p).

Lemma query_loop_progress queries_tsv w :
  let r := query_loop body queries_tsv w in
  printed r = notices (take (length (printed r)) queries_tsv)
  ∧ (ending r = Completed → length (printed r) = length queries_tsv)
  ∧ Forall (λ row, "Processed query " +:+ query_id row ∈ printed r) (written r).
Proof.
  revert w. induction queries_tsv as [|row later IH]; intros w; simpl.
  { by repeat split. }
  destruct (body row w) as [p| |] eqn:E; simpl; [|by repeat split..].
  destruct (body_done _ _ _ E) as [Hn Hq].
  destruct (IH (world p)) as (Hp & Hc & Hw). repeat split.
  - unfold notices in *. simpl. by rewrite Hn, <-Hp.
  - intros Hend. by rewrite Hc.
  - apply Forall_app. split.
    + eapply Forall_impl; [exact Hq|]. simpl. intros r ->. rewrite Hn. by left.
    + eapply Forall_impl; [exact Hw|]. simpl. intros r Hr. by right.
Qed.
End Progress.

(** X9. The progress lines are the lines "Processed query <id>" of the
    queries the run got through, in the order of the file; a run that
    completes has printed one for every row; and every row written belongs
    to a query whose progress line was printed.  This holds in both
    harnesses. *)
Theorem progress_lines_follow_queries (queries_tsv : list (list string)) :
  (∀ (W : Type) (s : Docfetcher.Searcher W) w,
     let r := Docfetcher.main s queries_tsv w in
     printed r = notices (take (length (printed r)) queries_tsv)
     ∧ (ending r = Completed → length (printed r) = length queries_tsv)
     ∧ Forall (λ row, "Processed query " +:+ query_id row ∈ printed r)
              (written r))
  ∧ (∀ (W : Type) (db : Recoll.Backend W) fuel w,
       let r := Recoll.main db fuel queries_tsv w in
       printed r = notices (take (length (printed r)) queries_tsv)
       ∧ (ending r = Completed → length (printed r) = length queries_tsv)
       ∧ Forall (λ row, "Processed query " +:+ query_id row ∈ printed r)
                (written r)).
Proof.
  split.
  - intros W s w. apply query_loop_progress. clear w. intros row w p Hp.
    unfold Docfetcher.process_query in Hp.
    destruct row as [|qid [|text rest]]; simpl in Hp; [done..|].
    destruct (Docfetcher.search s _ w) as [found w1].
    injection Hp as <-. simpl. split; [done|]. by apply writerows_Forall.
  - intros W db fuel w. apply query_loop_progress. clear w. intros row w p Hp.
    unfold Recoll.process_query in Hp.
    destruct row as [|qid [|text rest]]; simpl in Hp; [done..|].
    destruct (Recoll.fetchmany db _ _) as [batch w2].
    destruct (Recoll.walk db fuel _) as [st|e st|st]; [|done..].
    injection Hp as <-. simpl. split; [done|]. by apply writerows_Forall.
Qed.

(** ** The activity plot *)

Section Plot.
Context {T : Type} (strptime : string → option T) (elapsed : T → T → string).

Lemma row_fields (row : list string) :
  3 ≤ length row →
  row !! 0%nat = Some (ActivityPlot.field 0 row) ∧ row !! 1%nat = Some (ActivityPlot.field 1 row)
  ∧ row !! 2%nat = Some (ActivityPlot.field 2 row).
Proof.
  intros H. destruct row as [|a [|b [|c row]]]; simpl in H; try lia. done.
Qed.

Lemma short_row_lookup (row : list string) :
  length row < 3 →
  row !! 0%nat = None ∨ row !! 1%nat = None ∨ row !! 2%nat = None.
Proof.
  intros H. destruct row as [|a [|b [|c row]]]; simpl in H; try lia; auto.
Qed.

Lemma cpu_loop_ok rows results_cpu results_ram :
  Forall ActivityPlot.cpu_row_ok rows →
  ActivityPlot.cpu_loop rows results_cpu results_ram
  = inr (results_cpu ++ ((λ row, ActivityPlot.point (ActivityPlot.field 0 row) (ActivityPlot.field 1 row)) <$> rows),
         results_ram ++ ((λ row, ActivityPlot.point (ActivityPlot.field 0 row) (ActivityPlot.field 2 row)) <$> rows)).
Proof.
  intros H. revert results_cpu results_ram.
  induction H as [|row rows Hrow _ IH]; intros results_cpu results_ram.
  { simpl. by rewrite !app_nil_r. }
  destruct (row_fields row Hrow) as (H0 & H1 & H2).
  cbn [ActivityPlot.cpu_loop]. rewrite H0, H1, H2, IH.
  rewrite !fmap_cons, <-!app_assoc. done.
Qed.

Lemma cpu_loop_short rows results_cpu results_ram :
  Exists (λ row, ¬ ActivityPlot.cpu_row_ok row) rows →
  ActivityPlot.cpu_loop rows results_cpu results_ram = inl IndexError.
Proof.
  intros H. revert results_cpu results_ram.
  induction rows as [|row rows IH]; intros results_cpu results_ram.
  { by apply Exists_nil in H. }
  cbn [ActivityPlot.cpu_loop].
  destruct (decide (ActivityPlot.cpu_row_ok row)) as [Hrow|Hrow].
  - destruct (row_fields row Hrow) as (-> & -> & ->). apply IH.
    apply Exists_cons in H as [H|H]; [done|exact H].
  - unfold ActivityPlot.cpu_row_ok in Hrow.
    destruct (short_row_lookup row) as [->|[->| ->]]; [lia|done| |].
    + by destruct (row !! 0%nat).
    + by destruct (row !! 0%nat), (row !! 1%nat).
Qed.

Lemma gpu_loop_ok rows start results_gpu results_vram :
  Forall (ActivityPlot.gpu_row_ok strptime) rows →
  ActivityPlot.gpu_loop strptime elapsed rows (Some start) results_gpu results_vram
  = inr (results_gpu
           ++ ((λ row, ActivityPlot.point (ActivityPlot.time_from strptime elapsed start row) (ActivityPlot.field 1 row)) <$> rows),
         results_vram
           ++ ((λ row, ActivityPlot.point (ActivityPlot.time_from strptime elapsed start row) (ActivityPlot.field 2 row)) <$> rows)).
Proof.
  intros H. revert results_gpu results_vram.
  induction H as [|row rows [Hrow [d Hd]] _ IH]; intros results_gpu results_vram.
  { simpl. by rewrite !app_nil_r. }
  destruct (row_fields row Hrow) as (H0 & H1 & H2).
  cbn [ActivityPlot.gpu_loop]. rewrite H0, Hd, H1, H2. cbn [default].
  rewrite IH, !fmap_cons, <-!app_assoc. unfold ActivityPlot.time_from.
  rewrite Hd. reflexivity.
Qed.

Lemma gpu_loop_bad rows start results_gpu results_vram :
  Exists (λ row, ¬ (ActivityPlot.gpu_row_ok strptime) row) rows →
  ∃ e, ActivityPlot.gpu_loop strptime elapsed rows start results_gpu results_vram = inl e.
Proof.
  intros H. revert start results_gpu results_vram.
  induction rows as [|row rows IH]; intros start results_gpu results_vram.
  { by apply Exists_nil in H. }
  cbn [ActivityPlot.gpu_loop].
  destruct (row !! 0%nat) as [stamp|] eqn:E0; [|by eexists].
  destruct (strptime stamp) as [d|] eqn:Ed; [|by eexists].
  destruct (row !! 1%nat) as [gpu|] eqn:E1; [|by eexists].
  destruct (row !! 2%nat) as [vram|] eqn:E2; [|by eexists].
  apply IH. apply Exists_cons in H as [H|H]; [|exact H].
  exfalso. apply H. split.
  - apply lookup_lt_Some in E2. lia.
  - unfold ActivityPlot.field. rewrite E0. simpl. by rewrite Ed.
Qed.

Lemma gpu_loop_first rows results_gpu results_vram :
  Forall (ActivityPlot.gpu_row_ok strptime) rows →
  ActivityPlot.gpu_loop strptime elapsed rows None results_gpu results_vram
  = inr (results_gpu
           ++ ((λ row, ActivityPlot.point (ActivityPlot.gpu_time strptime elapsed rows row)
                             (ActivityPlot.field 1 row)) <$> rows),
         results_vram
           ++ ((λ row, ActivityPlot.point (ActivityPlot.gpu_time strptime elapsed rows row)
                             (ActivityPlot.field 2 row)) <$> rows)).
Proof.
  intros H. destruct H as [|row rows [Hrow [d Hd]] Hrows].
  { simpl. by rewrite !app_nil_r. }
  destruct (row_fields row Hrow) as (H0 & H1 & H2).
  cbn [ActivityPlot.gpu_loop]. rewrite H0, Hd, H1, H2. cbn [default].
  rewrite (gpu_loop_ok _ _ _ _ Hrows), <-!app_assoc.
  unfold ActivityPlot.gpu_time. cbn [head mbind option_bind].
  rewrite !fmap_cons, Hd.
  assert (Ht : ActivityPlot.time_from strptime elapsed d row = elapsed d d)
    by (unfold ActivityPlot.time_from; by rewrite Hd).
  rewrite Ht. reflexivity.
Qed.

Lemma main_cpu_bad activity_cpu activity_gpu :
  ¬ (activity_cpu ≠ [] ∧ Forall ActivityPlot.cpu_row_ok (tail activity_cpu)) →
  ∃ e, ActivityPlot.main strptime elapsed activity_cpu activity_gpu = {| ActivityPlot.content := "";
                                            ActivityPlot.failure := Some e |}.
Proof.
  intros H. destruct activity_cpu as [|header cpu_rows]; [by eexists|].
  unfold ActivityPlot.main. rewrite cpu_loop_short; [by eexists|].
  apply not_Forall_Exists; [intros row; unfold ActivityPlot.cpu_row_ok; apply _|].
  intros HF. apply H. by split.
Qed.

Lemma main_cpu_ok header cpu_rows activity_gpu :
  Forall ActivityPlot.cpu_row_ok cpu_rows →
  ActivityPlot.main strptime elapsed (header :: cpu_rows) activity_gpu
  = match activity_gpu with
    | [] => {| ActivityPlot.content := ActivityPlot.cpu_sections cpu_rows;
               ActivityPlot.failure := Some StopIteration |}
    | _ :: gpu_rows =>
        match ActivityPlot.gpu_loop strptime elapsed gpu_rows None [] [] with
        | inl e => {| ActivityPlot.content := ActivityPlot.cpu_sections cpu_rows;
                      ActivityPlot.failure := Some e |}
        | inr (results_gpu, results_vram) =>
            {| ActivityPlot.content :=
                 ActivityPlot.cpu_sections cpu_rows
                 +:+ ActivityPlot.nl +:+ ActivityPlot.nl +:+ "GPU (%):"
                 +:+ ActivityPlot.nl +:+ PyStr.join "" results_gpu
                 +:+ ActivityPlot.nl +:+ ActivityPlot.nl +:+ "VRAM (MiB):"
                 +:+ ActivityPlot.nl +:+ PyStr.join "" results_vram;
               ActivityPlot.failure := None |}
        end
    end.
Proof.
  intros H. unfold ActivityPlot.main. rewrite (cpu_loop_ok _ _ _ H).
  rewrite !app_nil_l. done.
Qed.

(** X10. The script runs to its end exactly when each log has a header row
    and every data row after it has three fields, the first field of a row
    of the second log being a date [strptime] accepts. *)
Theorem plot_succeeds_iff_logs_well_formed (activity_cpu activity_gpu : list (list string)) :
  ActivityPlot.failure (ActivityPlot.main strptime elapsed activity_cpu activity_gpu) = None
  ↔ (activity_cpu ≠ [] ∧ Forall ActivityPlot.cpu_row_ok (tail activity_cpu))
    ∧ (activity_gpu ≠ [] ∧ Forall (ActivityPlot.gpu_row_ok strptime) (tail activity_gpu)).
Proof.
  split.
  - intros Hrun.
    destruct (decide (activity_cpu ≠ [] ∧ Forall ActivityPlot.cpu_row_ok (tail activity_cpu)))
      as [Hcpu|Hcpu]; cycle 1.
    { destruct (main_cpu_bad _ activity_gpu Hcpu) as [e He].
      by rewrite He in Hrun. }
    split; [exact Hcpu|]. destruct Hcpu as [Hne Hcpu].
    destruct activity_cpu as [|header cpu_rows]; [done|]. simpl in Hcpu.
    rewrite (main_cpu_ok _ _ _ Hcpu) in Hrun.
    destruct activity_gpu as [|header' gpu_rows]; [done|]. split; [done|].
    simpl. destruct (decide (Forall (ActivityPlot.gpu_row_ok strptime) gpu_rows)) as [Hgpu|Hgpu]; [done|].
    apply not_Forall_Exists in Hgpu; [|apply _].
    destruct (gpu_loop_bad _ None [] [] Hgpu) as [e He].
    by rewrite He in Hrun.
  - intros [[Hne Hcpu] [Hne' Hgpu]].
    destruct activity_cpu as [|header cpu_rows]; [done|].
    destruct activity_gpu as [|header' gpu_rows]; [done|]. simpl in Hcpu, Hgpu.
    rewrite (main_cpu_ok _ _ _ Hcpu), (gpu_loop_first _ _ _ Hgpu). done.
Qed.

(** X11. A run that fails leaves a results file with whole sections only:
    the CPU and RAM sections, one point per data row of the first log, when
    that log is well formed, and nothing at all otherwise.  No part of the
    second log reaches the file. *)
Theorem failed_plot_keeps_whole_sections (activity_cpu activity_gpu : list (list string)) :
  ActivityPlot.failure (ActivityPlot.main strptime elapsed activity_cpu activity_gpu) ≠ None →
  (activity_cpu ≠ [] ∧ Forall ActivityPlot.cpu_row_ok (tail activity_cpu) →
   ActivityPlot.content (ActivityPlot.main strptime elapsed activity_cpu activity_gpu)
   = ActivityPlot.cpu_sections (tail activity_cpu))
  ∧ (¬ (activity_cpu ≠ [] ∧ Forall ActivityPlot.cpu_row_ok (tail activity_cpu)) →
     ActivityPlot.content (ActivityPlot.main strptime elapsed activity_cpu activity_gpu) = "").
Proof.
  intros Hrun. split.
  - intros [Hne Hcpu]. destruct activity_cpu as [|header cpu_rows]; [done|].
    simpl in Hcpu. rewrite (main_cpu_ok _ _ _ Hcpu) in Hrun |- *.
    destruct activity_gpu as [|header' gpu_rows]; [done|].
    destruct (ActivityPlot.gpu_loop strptime elapsed gpu_rows None [] []) as [e|[results_gpu results_vram]];
      [done|]. by simpl in Hrun.
  - intros Hcpu. destruct (main_cpu_bad _ activity_gpu Hcpu) as [e He].
    by rewrite He.
Qed.

(** X12. On well-formed logs the results file holds the four sections in
    the order CPU, RAM, GPU, VRAM, each with one point per data row in the
    order of the log; the header rows and any field after the third are
    left out, the times of the first log are copied as they are, and the
    times of the second are counted from its first data row. *)
Theorem plot_of_well_formed_logs (header header' : list string)
    (cpu_rows gpu_rows : list (list string)) :
  Forall ActivityPlot.cpu_row_ok cpu_rows →
  Forall (ActivityPlot.gpu_row_ok strptime) gpu_rows →
  ActivityPlot.main strptime elapsed (header :: cpu_rows) (header' :: gpu_rows)
  = {| ActivityPlot.content :=
         ActivityPlot.cpu_sections cpu_rows
         +:+ ActivityPlot.gpu_sections strptime elapsed gpu_rows;
       ActivityPlot.failure := None |}.
Proof.
  intros Hcpu Hgpu.
  rewrite (main_cpu_ok _ _ _ Hcpu), (gpu_loop_first _ _ _ Hgpu). done.
Qed.
End Plot.

Lemma failed_plot_keeps_whole_sections_witness :
  (Tally.cpu_log ≠ [] ∧ Forall ActivityPlot.cpu_row_ok (tail Tally.cpu_log) →
   ActivityPlot.content
     (ActivityPlot.main Tally.strptime Tally.elapsed Tally.cpu_log Tally.gpu_log_cut)
   = ActivityPlot.cpu_sections (tail Tally.cpu_log))
  ∧ (¬ (Tally.cpu_log ≠ [] ∧ Forall ActivityPlot.cpu_row_ok (tail Tally.cpu_log)) →
     ActivityPlot.content
       (ActivityPlot.main Tally.strptime Tally.elapsed Tally.cpu_log Tally.gpu_log_cut)
     = "").
Proof.
  apply (failed_plot_keeps_whole_sections Tally.strptime Tally.elapsed
           Tally.cpu_log Tally.gpu_log_cut).
  vm_compute. discriminate.
Defined.

Lemma plot_of_well_formed_logs_witness :
  ActivityPlot.main Tally.strptime Tally.elapsed Tally.cpu_log Tally.gpu_log
  = {| ActivityPlot.content :=
         ActivityPlot.cpu_sections (tail Tally.cpu_log)
         +:+ ActivityPlot.gpu_sections Tally.strptime Tally.elapsed
               (tail Tally.gpu_log);
       ActivityPlot.failure := None |}.
Proof.
  apply (plot_of_well_formed_logs Tally.strptime Tally.elapsed
           ["time"; "cpu"; "ram"] ["time"; "gpu"; "vram"]).
  - repeat apply Forall_cons_2; [| |apply Forall_nil_2];
      unfold ActivityPlot.cpu_row_ok; simpl; lia.
  - repeat apply Forall_cons_2; [| |apply Forall_nil_2];
      (split; [simpl; lia|eexists; reflexivity]).
Defined.
